(** * Pi Monte Carlo visualizer: sampler, statistics, history, animation

    A shallow embedding of the simulation logic of the two [App]
    components (the incremental one, whose [updateStats] adds one landed
    ball at a time, and the recomputing one, whose statistics effect
    filters the landed balls on every change), of the shared [types]
    and of the commentary service [getPiInsight].

    Numbers.  Counters ([totalInCircle], [totalInSquare], history
    indices, array lengths) are natural numbers.  The animation progress
    is an exact rational.  Landing coordinates are real numbers (they go
    through [Math.sqrt], [Math.cos] and [Math.sin]).  The π estimate and
    its error are values of [JS.number]: a finite rational, an infinity
    or NaN, so that a division by zero is visible in the model.
    Rounding of IEEE doubles is not modelled there; [Binary64] gives
    the landing point of [generateBall] as the doubles the code
    computes, to show where rounding matters.

    State.  Each component is a state machine over its [useState]
    cells.  An action (a drop, a reset, one firing of the interval or
    one animation frame, one run of the statistics effect) is atomic;
    the updaters queued by an action are applied in the order they were
    queued, each once.  [Math.random] is a random source handed to the
    drop; the SDK behind [getPiInsight] is a parameter. *)

From Stdlib Require Import String.
From Stdlib Require Import List Bool Arith ZArith QArith Qabs Reals Lra Lia.
From Stdlib Require Import Sorted Permutation Qreals.
From Stdlib Require Floats.
Import ListNotations.

Close Scope R_scope.
Close Scope Q_scope.
Close Scope Z_scope.
Close Scope string_scope.

(* ================================================================== *)
(** ** JavaScript numbers *)

Module JS.

(** A [number]: finite (exact rational), [Infinity]/[-Infinity], [NaN]. *)
Inductive number : Type :=
| Finite (q : Q)
| Infinity (negative : bool)
| NaN.

Definition isFinite (n : number) : bool :=
  match n with Finite _ => true | _ => false end.

Definition Qzero (q : Q) : bool := Qeq_bool q 0.
Definition Qneg (q : Q) : bool := negb (Qle_bool 0 q).

(** [a / b]: a finite dividend over zero is an infinity (or NaN for
    [0 / 0]); no operation raises. *)
Definition div (a b : number) : number :=
  match a, b with
  | NaN, _ | _, NaN => NaN
  | Finite p, Finite q =>
      if Qzero q then (if Qzero p then NaN else Infinity (Qneg p))
      else Finite (p / q)
  | Finite _, Infinity _ => Finite 0
  | Infinity s, Finite q => Infinity (xorb s (Qneg q))
  | Infinity _, Infinity _ => NaN
  end.

(** [a - b]. *)
Definition sub (a b : number) : number :=
  match a, b with
  | NaN, _ | _, NaN => NaN
  | Finite p, Finite q => Finite (p - q)
  | Finite _, Infinity s => Infinity (negb s)
  | Infinity s, Finite _ => Infinity s
  | Infinity s, Infinity t => if Bool.eqb s t then NaN else Infinity s
  end.

(** [Math.abs]. *)
Definition abs (a : number) : number :=
  match a with
  | Finite p => Finite (Qabs p)
  | Infinity _ => Infinity false
  | NaN => NaN
  end.

(** A natural number (a counter, an array length) as a [number]. *)
Definition ofNat (n : nat) : number := Finite (inject_Z (Z.of_nat n)).

(** [Math.PI], the double nearest to π: 884279719003555 / 2^48. *)
Definition PI : number := Finite (884279719003555 # 281474976710656).

(** [Array.from({ length: count }, ...)]: [ToLength] of a count.  A
    negative count gives the empty array. *)
Definition toLength (count : Z) : nat := Z.to_nat count.

End JS.

(* ================================================================== *)
(** ** types.ts *)

Inductive Status : Type := falling | landed.

Definition Status_eqb (a b : Status) : bool :=
  match a, b with
  | falling, falling | landed, landed => true
  | _, _ => false
  end.

Record Ball : Type := mkBall {
  id : string;
  x : R;
  y : R;
  targetX : R;
  targetY : R;
  progress : Q;            (* 0 to 1 for animation *)
  color : string;
  inSquare : bool;
  status : Status
}.

Record SimulationStats : Type := mkStats {
  totalInCircle : nat;
  totalInSquare : nat;
  estimatedPi : JS.number;
  error : JS.number
}.

Record HistoryPoint : Type := mkPoint {
  index : nat;
  value : JS.number
}.

(** The initial value of the [stats] state, also written by
    [resetSimulation]. *)
Definition zeroStats : SimulationStats :=
  {| totalInCircle := 0; totalInSquare := 0;
     estimatedPi := JS.Finite 0; error := JS.Finite 0 |}.

(* ================================================================== *)
(** ** The sampler: [generateBall] *)

(** Comparisons of real coordinates, as booleans. *)
Definition Rgeb (a b : R) : bool := if Rge_dec a b then true else false.
Definition Rleb (a b : R) : bool := if Rle_dec a b then true else false.

Record CanvasSize : Type := { width : R; height : R }.

(** The three calls of [Math.random] in one [generateBall]: the radial
    fraction, the angular fraction, and the one the identity token is
    printed from (kept as the token itself). *)
Record Draw : Type := mkDraw {
  radial : R;
  angular : R;
  token : string
}.

Section Sampler.

Variable canvasSize : CanvasSize.

(* Simulation parameters *)
Definition centerX : R := (width canvasSize / 2)%R.
Definition centerY : R := (height canvasSize / 2)%R.
Definition radius : R := (width canvasSize * (4 / 10))%R.
Definition squareSize : R := (radius * sqrt 2)%R.

Definition generateBall (d : Draw) : Ball :=
  let r := (radius * sqrt (radial d))%R in
  let theta := (angular d * 2 * PI)%R in
  let targetX := (centerX + r * cos theta)%R in
  let targetY := (centerY + r * sin theta)%R in
  let inSquare :=
    Rgeb targetX (centerX - squareSize / 2)%R &&
    Rleb targetX (centerX + squareSize / 2)%R &&
    Rgeb targetY (centerY - squareSize / 2)%R &&
    Rleb targetY (centerY + squareSize / 2)%R in
  {| id := token d;
     x := targetX;
     y := (-20)%R;
     targetX := targetX;
     targetY := targetY;
     progress := 0%Q;
     color := if inSquare then "#f472b6"%string else "#38bdf8"%string;
     inSquare := inSquare;
     status := falling |}.

(** [Array.from({ length: count }, generateBall)]: the i-th new ball
    takes the i-th draw of the random source. *)
Definition newBalls (count : Z) (rand : nat -> Draw) : list Ball :=
  map (fun i => generateBall (rand i)) (seq 0 (JS.toLength count)).

End Sampler.

(* ================================================================== *)
(** ** The sampler in binary64 *)

Module Binary64.
Import Floats.

(** [Math.cos] and [Math.sin] are implementation-approximated: a
    parameter of the model.  [Math.sqrt] and the arithmetic are the
    correctly rounded IEEE operations. *)
Record Math : Type := { cos : float -> float; sin : float -> float }.

(** [Math.PI] *)
Definition PI : float := 0x1.921fb54442d18p+1%float.

Record Landing : Type := {
  targetX : float;
  targetY : float;
  inSquare : bool
}.

(** The landing point and the membership flag of [generateBall], from
    the canvas size and the two draws of [Math.random]. *)
Definition generateBall (math : Math) (width height : float)
    (radial angular : float) : Landing :=
  let centerX := (width / 2)%float in
  let centerY := (height / 2)%float in
  let radius := (width * 0x1.999999999999ap-2)%float in   (* 0.4 *)
  let squareSize := (radius * PrimFloat.sqrt 2)%float in
  let r := (radius * PrimFloat.sqrt radial)%float in
  let theta := (angular * 2 * PI)%float in
  let targetX := (centerX + r * cos math theta)%float in
  let targetY := (centerY + r * sin math theta)%float in
  {| targetX := targetX;
     targetY := targetY;
     inSquare :=
       PrimFloat.leb (centerX - squareSize / 2)%float targetX &&
       PrimFloat.leb targetX (centerX + squareSize / 2)%float &&
       PrimFloat.leb (centerY - squareSize / 2)%float targetY &&
       PrimFloat.leb targetY (centerY + squareSize / 2)%float |}.

(** The rational a finite double stands for (0 for the others). *)
Definition exact (f : float) : Q :=
  match FloatOps.Prim2SF f with
  | SpecFloat.S754_finite s m e =>
      let v := (inject_Z (Zpos m) * Qpower 2 e)%Q in
      if s then (- v)%Q else v
  | _ => 0%Q
  end.

(** [Math.cos] and [Math.sin] at pi/4 as a double (the argument the
    draw 0.125 gives), correctly rounded: 0.7071067811865476 and
    0.7071067811865475.  No other argument is used below. *)
Definition nearest : Math :=
  {| cos := fun t =>
       if PrimFloat.eqb t 0x1.921fb54442d18p-1%float
       then 0x1.6a09e667f3bcdp-1%float else 1%float;
     sin := fun t =>
       if PrimFloat.eqb t 0x1.921fb54442d18p-1%float
       then 0x1.6a09e667f3bccp-1%float else 0%float |}.

(** The largest radial draw below 1 on a grid of 2^-52, and the
    angular draw 1/8. *)
Definition edgeRadial : float := (1 - 0x1p-52)%float.
Definition eighth : float := 0.125%float.

(** The canvas side 600, its centre coordinate 300, the radius 240, and
    the double 469.7056274847714. *)
Definition side : float := 600%float.
Definition centre : float := 300%float.
Definition radius240 : float := 240%float.
Definition coordinate469 : float := 0x1.d5b4a400ba408p+8%float.

(** [Math.sqrt(dx*dx + dy*dy)] for the offsets of a landing point from
    the centre of the 600 x 600 canvas. *)
Definition measuredDistance (b : Landing) : float :=
  let dx := (targetX b - centre)%float in
  let dy := (targetY b - centre)%float in
  PrimFloat.sqrt (dx * dx + dy * dy)%float.

End Binary64.

(* ================================================================== *)
(** ** The animator: one ball, one tick *)

Definition isFalling (ball : Ball) : bool := Status_eqb (status ball) falling.
Definition isLanded (ball : Ball) : bool := Status_eqb (status ball) landed.

(** [{ ...ball, progress: p }] *)
Definition withProgress (ball : Ball) (p : Q) : Ball :=
  {| id := id ball; x := x ball; y := y ball;
     targetX := targetX ball; targetY := targetY ball;
     progress := p;
     color := color ball; inSquare := inSquare ball;
     status := status ball |}.

(** [{ ...ball, progress: 1, status: 'landed' }] *)
Definition land (ball : Ball) : Ball :=
  {| id := id ball; x := x ball; y := y ball;
     targetX := targetX ball; targetY := targetY ball;
     progress := 1%Q;
     color := color ball; inSquare := inSquare ball;
     status := landed |}.

(** [nextProgress >= 1] for a falling ball. *)
Definition landsNow (increment : Q) (ball : Ball) : bool :=
  isFalling ball && Qle_bool 1 (progress ball + increment)%Q.

(** The callback of [prev.map] in both animation loops; they differ in
    the increment (0.05 and 0.08). *)
Definition advance (increment : Q) (ball : Ball) : Ball :=
  match status ball with
  | falling =>
      let nextProgress := (progress ball + increment)%Q in
      if Qle_bool 1 nextProgress then land ball
      else withProgress ball nextProgress
  | landed => ball
  end.

(** [n] ticks on one ball. *)
Fixpoint ticks (increment : Q) (n : nat) (ball : Ball) : Ball :=
  match n with
  | O => ball
  | S k => advance increment (ticks increment k ball)
  end.

(** The π estimate and its error as functions of the two counts. *)
Definition estimateOf (total square : nat) : JS.number :=
  if 0 <? square
  then JS.div (JS.ofNat (2 * total)) (JS.ofNat square)
  else JS.Finite 0.

Definition errorOf (estimate : JS.number) : JS.number :=
  JS.div (JS.abs (JS.sub JS.PI estimate)) JS.PI.

(** The canvas of both components. *)
Definition appCanvas : CanvasSize := {| width := 600%R; height := 600%R |}.

(* ================================================================== *)
(** ** The incremental component (first [App]) *)

Module Incremental.

Record State : Type := mkState {
  balls : list Ball;
  stats : SimulationStats;
  history : list HistoryPoint;
  isSimulationRunning : bool
}.

Definition init : State :=
  {| balls := []; stats := zeroStats; history := [];
     isSimulationRunning := false |}.

Definition canvasSize : CanvasSize := appCanvas.

Definition dropBalls (count : Z) (rand : nat -> Draw) (s : State) : State :=
  let newBalls := newBalls canvasSize count rand in
  {| balls := balls s ++ newBalls;
     stats := stats s;
     history := history s;
     isSimulationRunning := true |}.

(** [updateStats]: the [setStats] updater, with the [setHistory]
    updater it queues, applied to the current statistics and
    history. *)
Definition updateStats (landedBall : Ball) (s : State) : State :=
  let prev := stats s in
  let newTotal := totalInCircle prev + 1 in
  let newInSquare :=
    totalInSquare prev + (if inSquare landedBall then 1 else 0) in
  let estimatedPi :=
    if 0 <? newInSquare
    then JS.div (JS.ofNat (2 * newTotal)) (JS.ofNat newInSquare)
    else JS.Finite 0 in
  let error := JS.div (JS.abs (JS.sub JS.PI estimatedPi)) JS.PI in
  {| balls := balls s;
     stats := {| totalInCircle := newTotal;
                 totalInSquare := newInSquare;
                 estimatedPi := estimatedPi;
                 error := error |};
     history :=
       if newTotal mod 10 =? 0
       then history s ++ [{| index := newTotal; value := estimatedPi |}]
       else history s;
     isSimulationRunning := isSimulationRunning s |}.

Definition increment : Q := 5 # 100.

(** The [updateStats] calls made while [prev.map] walks the balls, in
    the order of the collection. *)
Definition landings (prev : list Ball) (s : State) : State :=
  fold_left
    (fun acc ball => if landsNow increment ball then updateStats ball acc
                     else acc)
    prev s.

(** One firing of the interval.  No interval is installed while the
    collection is empty. *)
Definition intervalTick (s : State) : State :=
  match balls s with
  | [] => s
  | prev =>
      let changed := existsb isFalling prev in
      let updated := map (advance increment) prev in
      let s' := landings prev s in
      {| balls := updated;
         stats := stats s';
         history := history s';
         isSimulationRunning :=
           if changed then isSimulationRunning s' else false |}
  end.

Definition resetSimulation (s : State) : State :=
  {| balls := [];
     stats := {| totalInCircle := 0; totalInSquare := 0;
                 estimatedPi := JS.Finite 0; error := JS.Finite 0 |};
     history := [];
     isSimulationRunning := isSimulationRunning s |}.

Inductive Action : Type :=
| Drop (count : Z) (rand : nat -> Draw)
| Tick
| Reset.

Definition step (s : State) (a : Action) : State :=
  match a with
  | Drop count rand => dropBalls count rand s
  | Tick => intervalTick s
  | Reset => resetSimulation s
  end.

(** The state after a sequence of actions from the initial state. *)
Definition run (trace : list Action) : State := fold_left step trace init.

End Incremental.

(* ================================================================== *)
(** ** The recomputing component (second [App]) *)

Module Recompute.

Record State : Type := mkState {
  balls : list Ball;
  stats : SimulationStats;
  history : list HistoryPoint
}.

Definition init : State :=
  {| balls := []; stats := zeroStats; history := [] |}.

Definition canvasSize : CanvasSize := appCanvas.

Definition dropBalls (count : Z) (rand : nat -> Draw) (s : State) : State :=
  let newBalls := newBalls canvasSize count rand in
  {| balls := balls s ++ newBalls;
     stats := stats s;
     history := history s |}.

(** [h.slice(-100)] *)
Definition sliceLast (n : nat) (h : list HistoryPoint) : list HistoryPoint :=
  skipn (length h - n) h.

(** The [setHistory] updater of the statistics effect. *)
Definition pushHistory (landedCount : nat) (estimatedPi : JS.number)
    (h : list HistoryPoint) : list HistoryPoint :=
  (* Prevent duplicate indices *)
  if (0 <? length h) && (index (last h (mkPoint 0 JS.NaN)) =? landedCount)
  then h
  else
    let nextHistory := h ++ [{| index := landedCount; value := estimatedPi |}] in
    sliceLast 100 nextHistory.   (* Keep last 100 points *)

(** The statistics effect. *)
Definition statsEffect (s : State) : State :=
  let landedBalls := filter isLanded (balls s) in
  let landedCount := length landedBalls in
  (* Only update if we have new landed balls *)
  if totalInCircle (stats s) <? landedCount then
    let inSquareCount := length (filter inSquare landedBalls) in
    let estimatedPi :=
      if 0 <? inSquareCount
      then JS.div (JS.ofNat (2 * landedCount)) (JS.ofNat inSquareCount)
      else JS.Finite 0 in
    let error := JS.div (JS.abs (JS.sub JS.PI estimatedPi)) JS.PI in
    {| balls := balls s;
       stats := {| totalInCircle := landedCount;
                   totalInSquare := inSquareCount;
                   estimatedPi := estimatedPi;
                   error := error |};
       history :=
         if (landedCount mod 10 =? 0) || (landedCount =? 1)
         then pushHistory landedCount estimatedPi (history s)
         else history s |}
  else s.

Definition increment : Q := 8 # 100.

(** The [setBalls] updater of one animation frame. *)
Definition animate (s : State) : State :=
  let prev := balls s in
  let hasChanges := existsb isFalling prev in
  let next := map (advance increment) prev in
  {| balls := if hasChanges then next else prev;
     stats := stats s;
     history := history s |}.

Definition resetSimulation (s : State) : State :=
  {| balls := [];
     stats := {| totalInCircle := 0; totalInSquare := 0;
                 estimatedPi := JS.Finite 0; error := JS.Finite 0 |};
     history := [] |}.

Inductive Action : Type :=
| Drop (count : Z) (rand : nat -> Draw)
| Frame
| Effect
| Reset.

Definition step (s : State) (a : Action) : State :=
  match a with
  | Drop count rand => dropBalls count rand s
  | Frame => animate s
  | Effect => statsEffect s
  | Reset => resetSimulation s
  end.

(** The state after a sequence of actions from the initial state.  The
    statistics effect is an action of its own: it may run after any
    other action, or be delayed. *)
Definition run (trace : list Action) : State := fold_left step trace init.

End Recompute.

(* ================================================================== *)
(** ** The commentary service: [getPiInsight] *)

Module GeminiService.

(** How a call ends: it returns, or it throws (for an awaited promise:
    it fulfils, or it rejects). *)
Inductive outcome (A : Type) : Type :=
| Returns (a : A)
| Throws (err : string).
Arguments Returns {A} a.
Arguments Throws {A} err.

(** The [stats] argument of [getPiInsight]. *)
Record InsightStats : Type := {
  total : nat;
  square : nat;
  estimate : JS.number;
  error : JS.number
}.

Record Request : Type := { model : string; contents : string }.

(** The response of the service; its [text] accessor may give
    [undefined]. *)
Record Response : Type := { text : option string }.

(** The world the service runs in: the configured credential, what the
    SDK's constructor does with it, what [ai.models.generateContent]
    does with a request, and how the prompt template prints the
    statistics. *)
Record Environment (Client : Type) : Type := {
  API_KEY : option string;
  newGoogleGenAI : option string -> outcome Client;
  generateContent : Client -> Request -> outcome Response;
  promptOf : InsightStats -> string
}.
Arguments API_KEY {Client} _.
Arguments newGoogleGenAI {Client} _ _.
Arguments generateContent {Client} _ _ _.
Arguments promptOf {Client} _ _.

Definition fallback : string :=
  "The laws of probability are currently contemplating your request. Try dropping more balls!"%string.

(** What [console.error] received, and how the returned promise
    settled. *)
Record Settled : Type := {
  logged : list string;
  result : outcome (option string)
}.

Section Service.

Context {Client : Type} (env : Environment Client).

Definition getAiClient : outcome Client :=
  newGoogleGenAI env (API_KEY env).

Definition getPiInsight (stats : InsightStats) : Settled :=
  match getAiClient with
  | Throws err => {| logged := []; result := Throws err |}
  | Returns ai =>
      let prompt := promptOf env stats in
      (* try *)
      match generateContent env ai
              {| model := "gemini-3-flash-preview"%string;
                 contents := prompt |} with
      | Returns response =>
          {| logged := []; result := Returns (text response) |}
      | Throws err =>   (* catch (error) *)
          {| logged := [err]; result := Returns (Some fallback) |}
      end
  end.

End Service.

End GeminiService.

(* ================================================================== *)
(** ** The canvas: [SimulationCanvas] *)

Module SimulationCanvas.

(** The geometry the component derives from its [width] and [height]
    props. *)
Definition centerX (width : R) : R := (width / 2)%R.
Definition centerY (height : R) : R := (height / 2)%R.
Definition radius (width height : R) : R := (Rmin width height * (4 / 10))%R.
Definition squareSize (width height : R) : R :=
  (radius width height * sqrt 2)%R.

(** Where [render] draws a ball: [ctx.arc(x, y, 3, ...)]. *)
Definition drawnX (ball : Ball) : R :=
  match status ball with
  | falling => targetX ball
  | landed => targetX ball
  end.

Definition drawnY (ball : Ball) : R :=
  match status ball with
  | falling => (-20 + (targetY ball + 20) * Q2R (progress ball))%R
  | landed => targetY ball
  end.

(** Glow effect for balls: the [shadowBlur] set before [ctx.fill()]. *)
Definition shadowBlur (ball : Ball) : R :=
  match status ball with
  | falling => 10%R
  | landed => 0%R
  end.

(** The dashed square: [ctx.rect(left, top, squareSize, squareSize)];
    a point is inside when it is within the rectangle's sides. *)
Definition rectLeft (width height : R) : R :=
  (centerX width - squareSize width height / 2)%R.
Definition rectTop (width height : R) : R :=
  (centerY height - squareSize width height / 2)%R.

Definition insideRect (width height px py : R) : Prop :=
  (rectLeft width height <= px <= rectLeft width height + squareSize width height
   /\ rectTop width height <= py <= rectTop width height + squareSize width height)%R.

End SimulationCanvas.

(* ================================================================== *)
(** ** What the properties are stated with *)

(** *** Counting landed balls *)

Definition landedCount (bs : list Ball) : nat :=
  length (filter isLanded bs).

Definition inSquareCount (bs : list Ball) : nat :=
  length (filter inSquare (filter isLanded bs)).

(** The four statistics in the specification's words (the convergence
    tracker): the two counts, the estimate [2 * total / square] if
    [square > 0] and 0 otherwise, the relative error against π; before
    the first landing they keep their zero defaults. *)
Definition statsOfCounts (total square : nat) : SimulationStats :=
  match total with
  | O => zeroStats
  | S _ =>
      {| totalInCircle := total;
         totalInSquare := square;
         estimatedPi := estimateOf total square;
         error := errorOf (estimateOf total square) |}
  end.

(** The statistics of a collection: those of its landed subset. *)
Definition trackerStats (bs : list Ball) : SimulationStats :=
  statsOfCounts (landedCount bs) (inSquareCount bs).

(** *** The estimate *)

(** The estimate is a finite number: twice the total over the square
    hits when there are square hits, and 0 when there are none. *)
Definition estimateSpec (st : SimulationStats) : Prop :=
  (0 < totalInSquare st ->
     exists q : Q,
       estimatedPi st = JS.Finite q /\
       (q == 2 * inject_Z (Z.of_nat (totalInCircle st))
               / inject_Z (Z.of_nat (totalInSquare st)))%Q) /\
  (totalInSquare st = 0 -> estimatedPi st = JS.Finite 0) /\
  JS.isFinite (estimatedPi st) = true.

(** *** History series *)

(** Indices strictly ascending: no index twice, none out of order. *)
Definition ascending (h : list HistoryPoint) : Prop :=
  StronglySorted lt (map index h).

Definition indicesUpTo (n : nat) (h : list HistoryPoint) : Prop :=
  Forall (fun p => index p <= n) h.

(** *** Sample inputs *)

(** A draw at the very centre of the disc. *)
Definition centreDraw : Draw :=
  {| radial := 0%R; angular := 0%R; token := "centre"%string |}.

(** A random source that always draws the centre. *)
Definition centreSource (i : nat) : Draw := centreDraw.

(** Three drops (500, 500 and 100 balls) and 20 firings of the
    interval. *)
Definition elevenHundred : list Incremental.Action :=
  [Incremental.Drop 500 centreSource; Incremental.Drop 500 centreSource;
   Incremental.Drop 100 centreSource] ++ repeat Incremental.Tick 20.

(** One centre ball dropped and landed, in each component. *)
Definition oneLandedA : list Incremental.Action :=
  Incremental.Drop 1 centreSource :: repeat Incremental.Tick 20.

Definition oneLandedB : list Recompute.Action :=
  Recompute.Drop 1 centreSource :: repeat Recompute.Frame 13.

(* ================================================================== *)
(** * Properties *)

(** ** One ball under the animator *)

Section Animator.

Variable increment : Q.

Lemma advance_landed (ball : Ball) :
  status ball = landed -> advance increment ball = ball.
Proof. intros H. unfold advance. now rewrite H. Qed.

Lemma advance_falling (ball : Ball) :
  status ball = falling ->
  advance increment ball =
    if Qle_bool 1 (progress ball + increment)%Q then land ball
    else withProgress ball (progress ball + increment)%Q.
Proof. intros H. unfold advance. now rewrite H. Qed.

Lemma advance_inSquare (ball : Ball) :
  inSquare (advance increment ball) = inSquare ball.
Proof.
  unfold advance. destruct (status ball); [|reflexivity].
  now destruct (Qle_bool _ _).
Qed.

Lemma advance_isLanded (ball : Ball) :
  isLanded (advance increment ball) = isLanded ball || landsNow increment ball.
Proof.
  unfold advance, landsNow, isLanded, isFalling.
  destruct (status ball) eqn:E; simpl.
  - destruct (Qle_bool _ _); simpl; [reflexivity|]. now rewrite E.
  - now rewrite E.
Qed.

Lemma landsNow_not_landed (ball : Ball) :
  landsNow increment ball = true -> isLanded ball = false.
Proof.
  unfold landsNow, isLanded, isFalling. now destruct (status ball).
Qed.

Lemma ticks_landed (n : nat) (ball : Ball) :
  status ball = landed -> ticks increment n ball = ball.
Proof.
  intros H. induction n as [|n IH]; simpl; [reflexivity|].
  rewrite IH. now apply advance_landed.
Qed.

Lemma ticks_add (n m : nat) (ball : Ball) :
  ticks increment (n + m) ball = ticks increment n (ticks increment m ball).
Proof. induction n as [|n IH]; simpl; [reflexivity|]. now rewrite IH. Qed.

(** The value of a counter of ticks as a rational. *)
Definition ofTicks (n : nat) : Q := inject_Z (Z.of_nat n).

Lemma ofTicks_S (n : nat) : (ofTicks (S n) == ofTicks n + 1)%Q.
Proof.
  unfold ofTicks. rewrite Nat2Z.inj_succ, <- Z.add_1_r.
  now rewrite inject_Z_plus.
Qed.

(** What a fresh ball looks like after [n] ticks: still falling, with
    progress [n * increment < 1] and nothing else touched, or landed
    with progress exactly 1 and nothing else touched. *)
Inductive phase (ball : Ball) (n : nat) : Ball -> Prop :=
| phase_falling (p : Q) :
    (p == ofTicks n * increment)%Q -> (p < 1)%Q ->
    phase ball n (withProgress ball p)
| phase_landed : phase ball n (land ball).

Lemma phase_step (ball : Ball) (n : nat) (b : Ball) :
  status ball = falling ->
  phase ball n b -> phase ball (S n) (advance increment b).
Proof.
  intros Hf [p Hp Hlt|].
  - rewrite advance_falling by exact Hf. simpl.
    destruct (Qle_bool 1 (p + increment)) eqn:E.
    + exact (phase_landed ball (S n)).
    + change (phase ball (S n) (withProgress ball (p + increment)%Q)).
      apply phase_falling.
      * rewrite Hp, ofTicks_S. ring.
      * apply Qnot_le_lt. intros Hle.
        apply Qle_bool_iff in Hle. congruence.
  - rewrite advance_landed by reflexivity. apply phase_landed.
Qed.

Lemma phase_ticks (ball : Ball) (n : nat) :
  status ball = falling -> progress ball = 0%Q ->
  phase ball n (ticks increment n ball).
Proof.
  intros Hf H0. induction n as [|n IH].
  - simpl. replace ball with (withProgress ball 0%Q) at 2
      by (destruct ball; simpl in *; now subst).
    apply phase_falling; [unfold ofTicks; simpl; ring | reflexivity].
  - simpl. now apply phase_step.
Qed.

End Animator.

Section Landing.

Variables (increment : Q) (ball : Ball).
Hypothesis increment_pos : (0 < increment)%Q.
Hypothesis fresh_status : status ball = falling.
Hypothesis fresh_progress : progress ball = 0%Q.

Let at_tick (n : nat) : Ball := ticks increment n ball.

Lemma landed_stays (n m : nat) :
  n <= m -> status (at_tick n) = landed -> at_tick m = at_tick n.
Proof.
  intros Hle Hl. unfold at_tick.
  replace m with ((m - n) + n) by lia.
  rewrite ticks_add. now apply ticks_landed.
Qed.

Lemma falling_before (n m : nat) :
  n <= m -> status (at_tick m) = falling -> status (at_tick n) = falling.
Proof.
  intros Hle Hf. destruct (status (at_tick n)) eqn:E; [reflexivity|].
  rewrite (landed_stays n m Hle E) in Hf. congruence.
Qed.

Lemma falling_progress (n : nat) :
  status (at_tick n) = falling ->
  (progress (at_tick n) == ofTicks n * increment)%Q /\
  (progress (at_tick n) < 1)%Q /\
  at_tick n = withProgress ball (progress (at_tick n)).
Proof.
  intros Hf. unfold at_tick in *.
  destruct (phase_ticks increment ball n fresh_status fresh_progress)
    as [p Hp Hlt|]; [|discriminate Hf].
  simpl. auto.
Qed.

Lemma landed_shape (n : nat) :
  status (at_tick n) = landed -> at_tick n = land ball.
Proof.
  intros Hl. unfold at_tick in *.
  destruct (phase_ticks increment ball n fresh_status fresh_progress)
    as [p Hp Hlt|]; [|reflexivity].
  simpl in Hl. congruence.
Qed.

(** After as many ticks as the increment's denominator the ball has
    landed. *)
Lemma lands_eventually :
  status (at_tick (Pos.to_nat (Qden increment))) = landed.
Proof.
  destruct (status (at_tick _)) eqn:E; [exfalso|reflexivity].
  apply falling_progress in E. destruct E as (Hp & Hlt & _).
  rewrite Hp in Hlt. revert Hlt increment_pos.
  unfold ofTicks, Qlt, Qmult. destruct increment as [a d]. simpl.
  rewrite positive_nat_Z. nia.
Qed.

Lemma first_landing (N : nat) :
  status (at_tick N) = landed ->
  exists k, 0 < k <= N /\ status (at_tick k) = landed /\
            status (at_tick (k - 1)) = falling.
Proof.
  induction N as [|N IH]; intros Hl.
  - unfold at_tick in Hl. simpl in Hl. congruence.
  - destruct (status (at_tick N)) eqn:E.
    + exists (S N). replace (S N - 1) with N by lia.
      split; [lia | split; assumption].
    + destruct (IH eq_refl) as (k & Hk & H1 & H2).
      exists k. split; [lia | split; assumption].
Qed.

Lemma progress_step (n : nat) :
  (progress (at_tick n) <= progress (at_tick (S n)))%Q /\
  (progress (at_tick (S n)) <= 1)%Q.
Proof.
  assert (Hb : forall m, (progress (at_tick m) <= 1)%Q).
  { intros m. destruct (status (at_tick m)) eqn:E.
    - apply Qlt_le_weak. now apply falling_progress.
    - rewrite (landed_shape m E). simpl. apply Qle_refl. }
  split; [|apply Hb].
  destruct (status (at_tick n)) eqn:E.
  - change (at_tick (S n)) with (advance increment (at_tick n)).
    rewrite advance_falling by exact E.
    destruct (Qle_bool _ _); simpl; [apply Hb|].
    rewrite <- (Qplus_0_r (progress (at_tick n))) at 1.
    apply Qplus_le_r. now apply Qlt_le_weak.
  - rewrite (landed_stays n (S n)) by auto. apply Qle_refl.
Qed.

Lemma landing_tick :
  exists k, 0 < k /\
    (forall n, n < k ->
       status (at_tick n) = falling /\
       (progress (at_tick n) == ofTicks n * increment)%Q /\
       (progress (at_tick n) < 1)%Q) /\
    (1 <= progress (at_tick (k - 1)) + increment)%Q /\
    (forall n, k <= n -> at_tick n = land ball).
Proof.
  destruct (first_landing _ lands_eventually) as (k & Hk & Hl & Hf).
  exists k. split; [lia|]. split; [|split].
  - intros n Hn.
    assert (E : status (at_tick n) = falling)
      by (apply (falling_before n (k - 1)); [lia | exact Hf]).
    destruct (falling_progress n E) as (Hp & Hlt & _). auto.
  - replace k with (S (k - 1)) in Hl by lia.
    change (at_tick (S (k - 1)))
      with (advance increment (at_tick (k - 1))) in Hl.
    rewrite advance_falling in Hl by exact Hf.
    destruct (Qle_bool 1 _) eqn:E.
    + now apply Qle_bool_iff.
    + simpl in Hl. congruence.
  - intros n Hn. rewrite (landed_stays k n Hn Hl). now apply landed_shape.
Qed.

End Landing.



(** The animation loops of the two components: a fresh ball lands on
    the 20th tick of the interval (increment 0.05) and on the 13th
    animation frame (increment 0.08). *)
Lemma interval_lands_on_tick_20 (ball : Ball) :
  status ball = falling -> progress ball = 0%Q ->
  status (ticks Incremental.increment 19 ball) = falling /\
  ticks Incremental.increment 20 ball = land ball.
Proof.
  destruct ball; simpl; intros -> ->. split; vm_compute; reflexivity.
Qed.

Lemma frame_lands_on_tick_13 (ball : Ball) :
  status ball = falling -> progress ball = 0%Q ->
  status (ticks Recompute.increment 12 ball) = falling /\
  ticks Recompute.increment 13 ball = land ball.
Proof.
  destruct ball; simpl; intros -> ->. split; vm_compute; reflexivity.
Qed.



(* ------------------------------------------------------------------ *)
(** ** The sampler *)

Lemma Rleb_true_iff (a b : R) : Rleb a b = true <-> (a <= b)%R.
Proof.
  unfold Rleb. destruct (Rle_dec a b); split; intros; auto; discriminate.
Qed.

Lemma Rgeb_true_iff (a b : R) : Rgeb a b = true <-> (b <= a)%R.
Proof.
  unfold Rgeb. destruct (Rge_dec a b) as [H|H]; split; intros H'; auto.
  - now apply Rge_le.
  - discriminate.
  - exfalso. apply H. now apply Rle_ge.
Qed.

Lemma Rabs_le_iff (a b : R) : (Rabs a <= b)%R <-> (- b <= a <= b)%R.
Proof.
  unfold Rabs. destruct (Rcase_abs a); split; intros; lra.
Qed.

Section SamplerFacts.

Variable canvasSize : CanvasSize.
Variable d : Draw.

Let ball : Ball := generateBall canvasSize d.
Let r : R := (radius canvasSize * sqrt (radial d))%R.
Let theta : R := (angular d * 2 * PI)%R.

Lemma generateBall_targetX :
  targetX ball = (centerX canvasSize + r * cos theta)%R.
Proof. reflexivity. Qed.

Lemma generateBall_targetY :
  targetY ball = (centerY canvasSize + r * sin theta)%R.
Proof. reflexivity. Qed.

Lemma generateBall_fresh : status ball = falling /\ progress ball = 0%Q.
Proof. split; reflexivity. Qed.

(** The squared distance of the landing point from the centre is the
    square of the drawn radius. *)
Lemma generateBall_distance :
  (Rsqr (targetX ball - centerX canvasSize)
   + Rsqr (targetY ball - centerY canvasSize) = Rsqr r)%R.
Proof.
  rewrite generateBall_targetX, generateBall_targetY.
  transitivity (Rsqr r * (Rsqr (sin theta) + Rsqr (cos theta)))%R.
  - unfold Rsqr. ring.
  - rewrite sin2_cos2. ring.
Qed.

Lemma generateBall_inSquare_iff :
  inSquare ball = true <->
  (Rabs (targetX ball - centerX canvasSize) <= radius canvasSize * sqrt 2 / 2
   /\ Rabs (targetY ball - centerY canvasSize)
        <= radius canvasSize * sqrt 2 / 2)%R.
Proof.
  unfold ball, generateBall. cbn [inSquare targetX targetY].
  rewrite !andb_true_iff, !Rgeb_true_iff, !Rleb_true_iff, !Rabs_le_iff.
  unfold squareSize. split; intros; lra.
Qed.

End SamplerFacts.

(** C4.  For every positive radius and every radial fraction in [0,1)
    (and every angle), the landing point of [generateBall] lies within
    distance [radius] of the centre of the circle. *)
Theorem generateBall_within_radius (canvasSize : CanvasSize) (d : Draw) :
  (0 < radius canvasSize)%R ->
  (0 <= radial d < 1)%R ->
  (sqrt (Rsqr (targetX (generateBall canvasSize d) - centerX canvasSize)
         + Rsqr (targetY (generateBall canvasSize d) - centerY canvasSize))
   <= radius canvasSize)%R.
Proof.
  intros HR [Hu0 Hu1].
  rewrite generateBall_distance.
  assert (Hs0 : (0 <= sqrt (radial d))%R) by apply sqrt_pos.
  assert (Hs1 : (sqrt (radial d) <= 1)%R).
  { rewrite <- sqrt_1. apply sqrt_le_1_alt. lra. }
  rewrite sqrt_Rsqr by nra. nra.
Qed.

Lemma appCanvas_radius : radius appCanvas = 240%R.
Proof. unfold radius, appCanvas. simpl. lra. Qed.

(** A draw off the centre: a quarter of the area, an eighth of a turn. *)
Definition quarterDraw : Draw :=
  {| radial := (1 / 4)%R; angular := (1 / 8)%R; token := "quarter"%string |}.

Lemma generateBall_within_radius_witness :
  (0 < radius appCanvas)%R /\
  (0 <= radial quarterDraw < 1)%R /\
  (sqrt (Rsqr (targetX (generateBall appCanvas quarterDraw) - centerX appCanvas)
         + Rsqr (targetY (generateBall appCanvas quarterDraw) - centerY appCanvas))
   <= radius appCanvas)%R.
Proof.
  assert (HR : (0 < radius appCanvas)%R) by (rewrite appCanvas_radius; lra).
  assert (Hu : (0 <= radial quarterDraw < 1)%R) by (simpl; lra).
  split; [exact HR|]. split; [exact Hu|].
  exact (generateBall_within_radius appCanvas quarterDraw HR Hu).
Defined.

(** C4, as stated, fails on the doubles the code computes: on the
    600 x 600 canvas, with the radial draw 1 - 2^-52 and the angular
    draw 0.125, [generateBall] returns the point
    (469.7056274847714, 469.7056274847714), whose distance from the
    centre (300, 300) exceeds the radius 240, both exactly and as
    [Math.sqrt(dx*dx + dy*dy)] gives it. *)
Lemma generateBall_binary64_outside_radius :
  let b := Binary64.generateBall Binary64.nearest
             Binary64.side Binary64.side
             Binary64.edgeRadial Binary64.eighth in
  Binary64.targetX b = Binary64.coordinate469 /\
  Binary64.targetY b = Binary64.coordinate469 /\
  ~ ((Binary64.exact (Binary64.targetX b) - 300) ^ 2
     + (Binary64.exact (Binary64.targetY b) - 300) ^ 2 <= 240 ^ 2)%Q /\
  PrimFloat.leb (Binary64.measuredDistance b) Binary64.radius240 = false.
Proof.
  cbv zeta. split; [vm_compute; reflexivity|].
  split; [vm_compute; reflexivity|].
  split; [|vm_compute; reflexivity].
  intros H. vm_compute in H. apply H. reflexivity.
Qed.

(* ------------------------------------------------------------------ *)
(** ** Counting landed balls *)

Lemma landedCount_app (l1 l2 : list Ball) :
  landedCount (l1 ++ l2) = landedCount l1 + landedCount l2.
Proof. unfold landedCount. now rewrite filter_app, length_app. Qed.

Lemma inSquareCount_app (l1 l2 : list Ball) :
  inSquareCount (l1 ++ l2) = inSquareCount l1 + inSquareCount l2.
Proof. unfold inSquareCount. now rewrite !filter_app, length_app. Qed.

Lemma inSquareCount_le (bs : list Ball) : inSquareCount bs <= landedCount bs.
Proof. apply filter_length_le. Qed.

Lemma newBalls_fresh (c : CanvasSize) (count : Z) (rand : nat -> Draw) :
  Forall (fun b => status b = falling /\ progress b = 0%Q)
         (newBalls c count rand).
Proof.
  unfold newBalls. apply Forall_forall. intros b Hin.
  apply in_map_iff in Hin. destruct Hin as (i & <- & _).
  apply generateBall_fresh.
Qed.

Lemma newBalls_length (c : CanvasSize) (count : Z) (rand : nat -> Draw) :
  length (newBalls c count rand) = Z.to_nat count.
Proof. unfold newBalls. now rewrite length_map, length_seq. Qed.

Lemma newBalls_none_landed (c : CanvasSize) (count : Z) (rand : nat -> Draw) :
  filter isLanded (newBalls c count rand) = [].
Proof.
  pose proof (newBalls_fresh c count rand) as H.
  induction H as [|b l [Hb _] _ IH]; simpl; [reflexivity|].
  unfold isLanded at 1. now rewrite Hb.
Qed.

Lemma newBalls_landedCount (c : CanvasSize) (count : Z) (rand : nat -> Draw) :
  landedCount (newBalls c count rand) = 0.
Proof. unfold landedCount. now rewrite newBalls_none_landed. Qed.

Lemma newBalls_inSquareCount (c : CanvasSize) (count : Z) (rand : nat -> Draw) :
  inSquareCount (newBalls c count rand) = 0.
Proof. unfold inSquareCount. now rewrite newBalls_none_landed. Qed.

Section Frame.

Variable increment : Q.

Lemma landedCount_advance (bs : list Ball) :
  landedCount (map (advance increment) bs)
  = landedCount bs + length (filter (landsNow increment) bs).
Proof.
  unfold landedCount. induction bs as [|b bs IH]; simpl; [reflexivity|].
  rewrite advance_isLanded.
  destruct (landsNow increment b) eqn:E.
  - rewrite (landsNow_not_landed _ _ E). simpl. lia.
  - rewrite orb_false_r. destruct (isLanded b); simpl; lia.
Qed.

Lemma inSquareCount_advance (bs : list Ball) :
  inSquareCount (map (advance increment) bs)
  = inSquareCount bs
    + length (filter inSquare (filter (landsNow increment) bs)).
Proof.
  unfold inSquareCount. induction bs as [|b bs IH]; simpl; [reflexivity|].
  rewrite advance_isLanded.
  destruct (landsNow increment b) eqn:E.
  - rewrite (landsNow_not_landed _ _ E). simpl.
    rewrite advance_inSquare. destruct (inSquare b); simpl; lia.
  - rewrite orb_false_r. destruct (isLanded b); simpl; [|lia].
    rewrite advance_inSquare. destruct (inSquare b); simpl; lia.
Qed.

Lemma advance_none_falling (bs : list Ball) :
  existsb isFalling bs = false -> map (advance increment) bs = bs.
Proof.
  induction bs as [|b bs IH]; simpl; [reflexivity|].
  intros H. apply orb_false_iff in H. destruct H as [Hb Hbs].
  rewrite IH by exact Hbs. f_equal. apply advance_landed.
  unfold isFalling in Hb. now destruct (status b).
Qed.

End Frame.

(* ------------------------------------------------------------------ *)
(** ** History series *)

Lemma StronglySorted_snoc (l : list nat) (m : nat) :
  StronglySorted lt l -> Forall (fun i => i < m) l ->
  StronglySorted lt (l ++ [m]).
Proof.
  induction 1 as [|a l Hs IH Ha]; intros Hm; simpl.
  - repeat constructor.
  - inversion Hm; subst. constructor; [auto|].
    apply Forall_app. split; [exact Ha | repeat constructor; assumption].
Qed.

Lemma StronglySorted_suffix (l1 l2 : list nat) :
  StronglySorted lt (l1 ++ l2) -> StronglySorted lt l2.
Proof.
  induction l1 as [|a l1 IH]; simpl; [auto|].
  intros H. inversion H; subst. auto.
Qed.

Lemma StronglySorted_lt_NoDup (l : list nat) :
  StronglySorted lt l -> NoDup l.
Proof.
  induction 1 as [|a l Hs IH Ha]; constructor; [|exact IH].
  intros Hin. rewrite Forall_forall in Ha. specialize (Ha a Hin). lia.
Qed.

Lemma StronglySorted_lt_le (l : list nat) :
  StronglySorted lt l -> StronglySorted le l.
Proof.
  induction 1 as [|a l Hs IH Ha]; constructor; [exact IH|].
  eapply Forall_impl; [|exact Ha]. simpl. intros. lia.
Qed.

Lemma ascending_snoc (h : list HistoryPoint) (n m : nat) (v : JS.number) :
  ascending h -> indicesUpTo n h -> n < m ->
  ascending (h ++ [{| index := m; value := v |}]) /\
  indicesUpTo m (h ++ [{| index := m; value := v |}]).
Proof.
  unfold ascending, indicesUpTo. intros Hs Hb Hlt. split.
  - rewrite map_app. simpl. apply StronglySorted_snoc; [exact Hs|].
    apply Forall_map. eapply Forall_impl; [|exact Hb]. simpl. intros. lia.
  - apply Forall_app. split.
    + eapply Forall_impl; [|exact Hb]. simpl. intros. lia.
    + repeat constructor.
Qed.

Lemma indicesUpTo_mono (h : list HistoryPoint) (n m : nat) :
  n <= m -> indicesUpTo n h -> indicesUpTo m h.
Proof.
  unfold indicesUpTo. intros Hle Hb.
  eapply Forall_impl; [|exact Hb]. simpl. intros. lia.
Qed.

(* ------------------------------------------------------------------ *)
(** ** Statistics are those of the two counts *)

Lemma statsOfCounts_total (n k : nat) : totalInCircle (statsOfCounts n k) = n.
Proof. now destruct n. Qed.

Lemma statsOfCounts_square (n k : nat) :
  k <= n -> totalInSquare (statsOfCounts n k) = k.
Proof. destruct n; simpl; [lia | reflexivity]. Qed.

Lemma statsOfCounts_estimate (n k : nat) :
  k <= n -> estimatedPi (statsOfCounts n k) = estimateOf n k.
Proof.
  destruct n; simpl; [|reflexivity].
  intros H. replace k with 0 by lia. reflexivity.
Qed.

Lemma ofNat_nonzero (k : nat) :
  0 < k -> JS.Qzero (inject_Z (Z.of_nat k)) = false.
Proof.
  intros Hk. unfold JS.Qzero. destruct (Qeq_bool _ _) eqn:E; [|reflexivity].
  apply Qeq_bool_iff in E. unfold Qeq in E. simpl in E. lia.
Qed.

Lemma estimateOf_spec (n k : nat) (err : JS.number) :
  estimateSpec {| totalInCircle := n; totalInSquare := k;
                  estimatedPi := estimateOf n k; error := err |}.
Proof.
  unfold estimateSpec, estimateOf.
  cbn [totalInCircle totalInSquare estimatedPi].
  destruct k as [|k].
  - simpl. repeat split; intros; try reflexivity; lia.
  - change (0 <? S k) with true. cbv iota.
    unfold JS.div, JS.ofNat. rewrite ofNat_nonzero by lia.
    repeat split; intros; try discriminate.
    eexists. split; [reflexivity|].
    rewrite Nat2Z.inj_mul, inject_Z_mult. reflexivity.
Qed.

Lemma statsOfCounts_spec (n k : nat) :
  k <= n -> estimateSpec (statsOfCounts n k).
Proof.
  intros Hle. destruct n; simpl.
  - unfold estimateSpec. simpl. repeat split; intros; try reflexivity; lia.
  - apply estimateOf_spec.
Qed.

(* ------------------------------------------------------------------ *)
(** ** The incremental component *)

Module IncrementalFacts.
Import Incremental.

(** The statistics and the history of [s] are those of [n] landed
    balls of which [k] are in the square. *)
Record Tracked (n k : nat) (s : State) : Prop := {
  tracked_stats : stats s = statsOfCounts n k;
  tracked_le : k <= n;
  tracked_ascending : ascending (history s);
  tracked_indices : indicesUpTo n (history s)
}.

Lemma updateStats_stats (b : Ball) (s : State) :
  stats (updateStats b s) =
    let n := totalInCircle (stats s) + 1 in
    let k := totalInSquare (stats s) + (if inSquare b then 1 else 0) in
    {| totalInCircle := n; totalInSquare := k;
       estimatedPi := estimateOf n k;
       error := errorOf (estimateOf n k) |}.
Proof. reflexivity. Qed.

Lemma updateStats_tracked (b : Ball) (n k : nat) (s : State) :
  Tracked n k s ->
  Tracked (n + 1) (k + (if inSquare b then 1 else 0)) (updateStats b s).
Proof.
  intros [Hst Hle Hasc Hidx]. split.
  - rewrite updateStats_stats, Hst, statsOfCounts_total,
      statsOfCounts_square by exact Hle.
    cbv zeta. replace (n + 1) with (S n) by lia. reflexivity.
  - destruct (inSquare b); lia.
  - unfold updateStats. cbn [history]. rewrite Hst, statsOfCounts_total.
    destruct (_ =? 0); [|exact Hasc].
    apply (ascending_snoc _ n); [assumption | assumption | lia].
  - unfold updateStats. cbn [history]. rewrite Hst, statsOfCounts_total.
    destruct (_ =? 0).
    + apply (ascending_snoc _ n); [assumption | assumption | lia].
    + apply (indicesUpTo_mono _ n); [lia | assumption].
Qed.

Lemma landings_tracked (prev : list Ball) :
  forall (n k : nat) (s : State),
    Tracked n k s ->
    Tracked (n + length (filter (landsNow increment) prev))
            (k + length (filter inSquare (filter (landsNow increment) prev)))
            (landings prev s).
Proof.
  unfold landings.
  induction prev as [|b prev IH]; intros n k s Ht; simpl.
  - now rewrite !Nat.add_0_r.
  - destruct (landsNow increment b) eqn:E; simpl.
    + apply (updateStats_tracked b) in Ht. apply IH in Ht.
      destruct (inSquare b); simpl;
        repeat rewrite <- Nat.add_assoc in Ht; simpl in Ht;
        try rewrite Nat.add_0_l in Ht;
        repeat rewrite <- plus_n_Sm; repeat rewrite <- plus_n_Sm in Ht;
        try rewrite Nat.add_0_r in Ht; exact Ht.
    + now apply IH.
Qed.

(** The invariant of the component: statistics and history are those
    of the landed balls of the collection. *)
Definition Tracking (s : State) : Prop :=
  Tracked (landedCount (balls s)) (inSquareCount (balls s)) s.

Lemma tracking_init : Tracking init.
Proof. split; simpl; auto; constructor. Qed.

Lemma tracking_dropBalls (count : Z) (rand : nat -> Draw) (s : State) :
  Tracking s -> Tracking (dropBalls count rand s).
Proof.
  unfold Tracking, dropBalls. cbn [balls].
  rewrite landedCount_app, inSquareCount_app.
  rewrite newBalls_landedCount, newBalls_inSquareCount, !Nat.add_0_r.
  intros [H1 H2 H3 H4]. split; assumption.
Qed.

Lemma tracking_intervalTick (s : State) : Tracking s -> Tracking (intervalTick s).
Proof.
  unfold Tracking, intervalTick. destruct (balls s) as [|b0 prev] eqn:E.
  - now rewrite E.
  - intros Ht. cbn [balls].
    rewrite landedCount_advance, inSquareCount_advance.
    apply (landings_tracked (b0 :: prev)) in Ht.
    destruct Ht as [H1 H2 H3 H4]. split; assumption.
Qed.

Lemma tracking_resetSimulation (s : State) : Tracking (resetSimulation s).
Proof. split; simpl; auto; constructor. Qed.

Lemma tracking_step (s : State) (a : Action) : Tracking s -> Tracking (step s a).
Proof.
  destruct a; simpl.
  - apply tracking_dropBalls.
  - apply tracking_intervalTick.
  - intros _. apply tracking_resetSimulation.
Qed.

Lemma tracking_fold (trace : list Action) :
  forall s, Tracking s -> Tracking (fold_left step trace s).
Proof.
  induction trace as [|a trace IH]; simpl; [auto|].
  intros s Hs. apply IH. now apply tracking_step.
Qed.

Lemma tracking_run (trace : list Action) : Tracking (run trace).
Proof. apply tracking_fold, tracking_init. Qed.

End IncrementalFacts.

(* ------------------------------------------------------------------ *)
(** ** The recomputing component *)

Module RecomputeFacts.
Import Recompute.

Lemma sliceLast_suffix (n : nat) (h : list HistoryPoint) :
  exists evicted, h = evicted ++ sliceLast n h.
Proof.
  exists (firstn (length h - n) h). unfold sliceLast.
  now rewrite firstn_skipn.
Qed.

Lemma sliceLast_length (n : nat) (h : list HistoryPoint) :
  length (sliceLast n h) = Nat.min n (length h).
Proof. unfold sliceLast. rewrite length_skipn. lia. Qed.

Lemma sliceLast_ascending (n : nat) (h : list HistoryPoint) :
  ascending h -> ascending (sliceLast n h).
Proof.
  destruct (sliceLast_suffix n h) as [ev Hev]. unfold ascending.
  rewrite Hev at 1. rewrite map_app. apply StronglySorted_suffix.
Qed.

Lemma sliceLast_indices (m n : nat) (h : list HistoryPoint) :
  indicesUpTo m h -> indicesUpTo m (sliceLast n h).
Proof.
  destruct (sliceLast_suffix n h) as [ev Hev]. unfold indicesUpTo.
  rewrite Hev at 1. intros H. now apply Forall_app in H.
Qed.

(** What the [setHistory] updater returns: the series itself, or the
    series with the new point at its end and, beyond 100 points, its
    oldest points dropped. *)
Lemma pushHistory_fifo (n : nat) (v : JS.number) (h : list HistoryPoint) :
  pushHistory n v h = h \/
  exists evicted,
    h ++ [{| index := n; value := v |}] = evicted ++ pushHistory n v h /\
    length (pushHistory n v h) = Nat.min 100 (length h + 1).
Proof.
  unfold pushHistory. destruct (_ && _); [now left | right].
  destruct (sliceLast_suffix 100 (h ++ [{| index := n; value := v |}]))
    as [ev Hev].
  exists ev. split; [exact Hev|].
  rewrite sliceLast_length, length_app. reflexivity.
Qed.

Lemma pushHistory_length (n : nat) (v : JS.number) (h : list HistoryPoint) :
  length h <= 100 -> length (pushHistory n v h) <= 100.
Proof.
  intros Hh. destruct (pushHistory_fifo n v h) as [-> | (ev & _ & Hl)];
    [exact Hh | lia].
Qed.

Lemma pushHistory_ascending (m n : nat) (v : JS.number)
    (h : list HistoryPoint) :
  ascending h -> indicesUpTo m h -> m < n ->
  ascending (pushHistory n v h) /\ indicesUpTo n (pushHistory n v h).
Proof.
  intros Hasc Hidx Hlt. unfold pushHistory.
  destruct (_ && _).
  - split; [exact Hasc|]. apply (indicesUpTo_mono _ m); [lia | exact Hidx].
  - destruct (ascending_snoc h m n v Hasc Hidx Hlt) as [H1 H2].
    split; [now apply sliceLast_ascending | now apply sliceLast_indices].
Qed.

(** The invariant of the component.  The statistics are those of the
    two counts they hold; the counts are behind the collection's by
    some landed balls, among them the square hits still uncounted;
    the history is ascending, bounded by the count, at most 100 points
    long. *)
Record Inv (s : State) : Prop := {
  inv_stats :
    stats s = statsOfCounts (totalInCircle (stats s)) (totalInSquare (stats s));
  inv_le : totalInSquare (stats s) <= totalInCircle (stats s);
  inv_total : totalInCircle (stats s) <= landedCount (balls s);
  inv_square : totalInSquare (stats s) <= inSquareCount (balls s);
  inv_behind :
    inSquareCount (balls s) + totalInCircle (stats s)
    <= landedCount (balls s) + totalInSquare (stats s);
  inv_ascending : ascending (history s);
  inv_indices : indicesUpTo (totalInCircle (stats s)) (history s);
  inv_length : length (history s) <= 100
}.

Lemma Inv_init : Inv init.
Proof.
  split; simpl; try reflexivity; try lia; constructor.
Qed.

Lemma Inv_resetSimulation (s : State) : Inv (resetSimulation s).
Proof.
  split; simpl; try reflexivity; try lia; constructor.
Qed.

Lemma Inv_dropBalls (count : Z) (rand : nat -> Draw) (s : State) :
  Inv s -> Inv (dropBalls count rand s).
Proof.
  intros [H1 H2 H3 H4 H5 H6 H7 H8].
  split; unfold dropBalls; cbn [balls stats history];
    rewrite ?landedCount_app, ?inSquareCount_app,
      ?newBalls_landedCount, ?newBalls_inSquareCount, ?Nat.add_0_r;
    assumption.
Qed.

Lemma Inv_animate (s : State) : Inv s -> Inv (animate s).
Proof.
  intros [H1 H2 H3 H4 H5 H6 H7 H8].
  assert (Hb : balls (animate s) = map (advance increment) (balls s)).
  { unfold animate. cbn [balls].
    destruct (existsb isFalling (balls s)) eqn:E; [reflexivity|].
    symmetry. now apply advance_none_falling. }
  split; rewrite ?Hb; unfold animate; cbn [stats history];
    rewrite ?landedCount_advance, ?inSquareCount_advance;
    try assumption; try lia.
  pose proof (filter_length_le inSquare
                (filter (landsNow increment) (balls s))).
  lia.
Qed.

Lemma statsEffect_fires (s : State) :
  totalInCircle (stats s) < landedCount (balls s) ->
  stats (statsEffect s) = trackerStats (balls s) /\
  balls (statsEffect s) = balls s /\
  history (statsEffect s) =
    if (landedCount (balls s) mod 10 =? 0) || (landedCount (balls s) =? 1)
    then pushHistory (landedCount (balls s))
           (estimateOf (landedCount (balls s)) (inSquareCount (balls s)))
           (history s)
    else history s.
Proof.
  intros Hlt. unfold statsEffect.
  fold (landedCount (balls s)). fold (inSquareCount (balls s)).
  apply Nat.ltb_lt in Hlt. rewrite Hlt. cbn [stats balls history].
  split; [|split; reflexivity].
  unfold trackerStats, statsOfCounts.
  destruct (landedCount (balls s)) eqn:E; [|reflexivity].
  apply Nat.ltb_lt in Hlt. lia.
Qed.

Lemma statsEffect_idle (s : State) :
  landedCount (balls s) <= totalInCircle (stats s) -> statsEffect s = s.
Proof.
  intros Hle. unfold statsEffect. fold (landedCount (balls s)).
  apply Nat.ltb_ge in Hle. now rewrite Hle.
Qed.

Lemma Inv_statsEffect (s : State) : Inv s -> Inv (statsEffect s).
Proof.
  intros Hs.
  destruct (Nat.lt_ge_cases (totalInCircle (stats s)) (landedCount (balls s)))
    as [Hlt | Hge]; [|now rewrite statsEffect_idle].
  destruct (statsEffect_fires s Hlt) as (Est & Eb & Eh).
  destruct Hs as [H1 H2 H3 H4 H5 H6 H7 H8].
  pose proof (inSquareCount_le (balls s)) as Hle.
  assert (Et : totalInCircle (stats (statsEffect s)) = landedCount (balls s))
    by (rewrite Est; apply statsOfCounts_total).
  assert (Eq : totalInSquare (stats (statsEffect s)) = inSquareCount (balls s))
    by (rewrite Est; now apply statsOfCounts_square).
  assert (Hh : ascending (history (statsEffect s)) /\
               indicesUpTo (landedCount (balls s)) (history (statsEffect s)) /\
               length (history (statsEffect s)) <= 100).
  { rewrite Eh. destruct (_ || _).
    - destruct (pushHistory_ascending (totalInCircle (stats s))
                  (landedCount (balls s))
                  (estimateOf (landedCount (balls s)) (inSquareCount (balls s)))
                  (history s) H6 H7 Hlt) as [Ha Hi].
      split; [exact Ha|]. split; [exact Hi|]. now apply pushHistory_length.
    - split; [exact H6|]. split; [|exact H8].
      apply (indicesUpTo_mono _ (totalInCircle (stats s))); [lia | exact H7]. }
  destruct Hh as (Ha & Hi & Hl).
  split; rewrite ?Et, ?Eq, ?Eb; try assumption; lia.
Qed.

Lemma Inv_step (s : State) (a : Action) : Inv s -> Inv (step s a).
Proof.
  destruct a; simpl.
  - apply Inv_dropBalls.
  - apply Inv_animate.
  - apply Inv_statsEffect.
  - intros _. apply Inv_resetSimulation.
Qed.

Lemma Inv_fold (trace : list Action) :
  forall s, Inv s -> Inv (fold_left step trace s).
Proof.
  induction trace as [|a trace IH]; simpl; [auto|].
  intros s Hs. apply IH. now apply Inv_step.
Qed.

Lemma Inv_run (trace : list Action) : Inv (run trace).
Proof. apply Inv_fold, Inv_init. Qed.

(** Once the statistics effect has run, the statistics are those of
    the landed balls of the collection. *)
Lemma statsEffect_tracks (s : State) :
  Inv s -> stats (statsEffect s) = trackerStats (balls s).
Proof.
  intros Hs.
  destruct (Nat.lt_ge_cases (totalInCircle (stats s)) (landedCount (balls s)))
    as [Hlt | Hge]; [now apply statsEffect_fires|].
  rewrite statsEffect_idle by exact Hge.
  destruct Hs as [H1 H2 H3 H4 H5 _ _ _].
  rewrite H1. unfold trackerStats. f_equal; lia.
Qed.

End RecomputeFacts.

(* ================================================================== *)
(** * The specification's claims *)

(** C1.  Every statistics update of either component (a call of
    [updateStats]; a firing of the statistics effect), and every state
    either component reaches, holds an estimate that is the finite
    number [2 * totalInCircle / totalInSquare] when [totalInSquare] is
    positive and the number 0 when it is 0: never an infinity, NaN or
    an error. *)
Theorem estimate_is_guarded_quotient :
  (forall (landedBall : Ball) (s : Incremental.State),
     estimateSpec (Incremental.stats (Incremental.updateStats landedBall s))) /\
  (forall s : Recompute.State,
     Recompute.statsEffect s = s \/
     estimateSpec (Recompute.stats (Recompute.statsEffect s))) /\
  (forall trace, estimateSpec (Incremental.stats (Incremental.run trace))) /\
  (forall trace, estimateSpec (Recompute.stats (Recompute.run trace))).
Proof.
  split; [|split; [|split]].
  - intros b s. rewrite IncrementalFacts.updateStats_stats.
    apply estimateOf_spec.
  - intros s.
    destruct (Nat.lt_ge_cases (totalInCircle (Recompute.stats s))
                (landedCount (Recompute.balls s))) as [Hlt | Hge].
    + right. destruct (RecomputeFacts.statsEffect_fires s Hlt) as [-> _].
      apply statsOfCounts_spec, inSquareCount_le.
    + left. now apply RecomputeFacts.statsEffect_idle.
  - intros trace.
    destruct (IncrementalFacts.tracking_run trace) as [-> Hle _ _].
    now apply statsOfCounts_spec.
  - intros trace.
    destruct (RecomputeFacts.Inv_run trace) as [H1 Hle _ _ _ _ _ _].
    rewrite H1. now apply statsOfCounts_spec.
Qed.

(** C2.  In every state reached by drops, ticks and resets (and, in the
    recomputing component, firings of the statistics effect),
    [totalInSquare <= totalInCircle].  In the incremental component the
    two counters are the number of landed balls and of landed balls in
    the square; in the recomputing component they are so once the
    statistics effect has run. *)
Theorem square_hits_at_most_total :
  (forall trace,
     let s := Incremental.run trace in
     totalInSquare (Incremental.stats s) <= totalInCircle (Incremental.stats s) /\
     totalInCircle (Incremental.stats s) = landedCount (Incremental.balls s) /\
     totalInSquare (Incremental.stats s) = inSquareCount (Incremental.balls s)) /\
  (forall trace,
     let s := Recompute.run trace in
     totalInSquare (Recompute.stats s) <= totalInCircle (Recompute.stats s) /\
     totalInCircle (Recompute.stats (Recompute.statsEffect s))
       = landedCount (Recompute.balls s) /\
     totalInSquare (Recompute.stats (Recompute.statsEffect s))
       = inSquareCount (Recompute.balls s)).
Proof.
  split; intros trace; cbv zeta.
  - destruct (IncrementalFacts.tracking_run trace) as [Hst Hle _ _].
    rewrite Hst, statsOfCounts_total, statsOfCounts_square by exact Hle.
    auto.
  - pose proof (RecomputeFacts.Inv_run trace) as Hinv.
    rewrite (RecomputeFacts.statsEffect_tracks _ Hinv).
    unfold trackerStats.
    rewrite statsOfCounts_total, statsOfCounts_square
      by apply inSquareCount_le.
    split; [apply Hinv | auto].
Qed.

(** C3, as stated, fails on the incremental component: after 1100
    landings its history holds 110 points. *)
Lemma incremental_history_exceeds_100 :
  ~ (length (Incremental.history (Incremental.run elevenHundred)) <= 100).
Proof.
  assert (E : length (Incremental.history (Incremental.run elevenHundred)) = 110)
    by (vm_compute; reflexivity).
  rewrite E. lia.
Qed.

(** The duplicate-index test of the [setHistory] updater. *)
Definition repeatsLast (count : nat) (h : list HistoryPoint) : bool :=
  (0 <? length h) && (index (last h (mkPoint 0 JS.NaN)) =? count).

Lemma pushHistory_guarded (count : nat) (estimate : JS.number)
    (h : list HistoryPoint) :
  (repeatsLast count h = true -> Recompute.pushHistory count estimate h = h) /\
  (repeatsLast count h = false ->
   exists evicted,
     h ++ [{| index := count; value := estimate |}]
       = evicted ++ Recompute.pushHistory count estimate h /\
     length (Recompute.pushHistory count estimate h)
       = Nat.min 100 (length h + 1)).
Proof.
  unfold Recompute.pushHistory, repeatsLast.
  destruct (_ && _); split; intros H; try discriminate; [reflexivity|].
  destruct (RecomputeFacts.sliceLast_suffix 100
              (h ++ [{| index := count; value := estimate |}])) as [ev Hev].
  exists ev. split; [exact Hev|].
  rewrite RecomputeFacts.sliceLast_length, length_app. reflexivity.
Qed.

Lemma indicesUpTo_last (n : nat) (h : list HistoryPoint) :
  indicesUpTo n h -> 0 < length h -> index (last h (mkPoint 0 JS.NaN)) <= n.
Proof.
  intros Hb Hl. unfold indicesUpTo in Hb. rewrite Forall_forall in Hb.
  apply Hb. destruct h as [|p h]; [simpl in Hl; lia|].
  destruct (@exists_last _ (p :: h)) as (h' & q & E); [discriminate|].
  rewrite E, last_last. apply in_or_app. right. now left.
Qed.

(** C3 (amended).  In every reachable state of either component the
    history's indices are strictly ascending, so no index occurs twice
    and none is out of order.  In the recomputing component the history
    never holds more than 100 points; its updater returns the series
    unchanged only when the last index already is the new one, and
    otherwise appends the new point at the end and drops the oldest
    points beyond 100; when the statistics effect records a point in a
    reachable state, that is what happens.  The incremental component
    accumulates its history: every append adds the point at the end and
    keeps all earlier points. *)
Theorem history_ascending_and_bounded :
  (forall trace,
     let h := Recompute.history (Recompute.run trace) in
     StronglySorted lt (map index h) /\
     NoDup (map index h) /\
     StronglySorted le (map index h) /\
     length h <= 100) /\
  (forall (count : nat) (estimate : JS.number) (h : list HistoryPoint),
     let duplicate :=
       (0 <? length h) && (index (last h (mkPoint 0 JS.NaN)) =? count) in
     (duplicate = true -> Recompute.pushHistory count estimate h = h) /\
     (duplicate = false ->
      exists evicted,
        h ++ [{| index := count; value := estimate |}]
          = evicted ++ Recompute.pushHistory count estimate h /\
        length (Recompute.pushHistory count estimate h)
          = Nat.min 100 (length h + 1))) /\
  (forall trace,
     let s := Recompute.run trace in
     let count := landedCount (Recompute.balls s) in
     let estimate := estimateOf count (inSquareCount (Recompute.balls s)) in
     totalInCircle (Recompute.stats s) < count ->
     (count mod 10 =? 0) || (count =? 1) = true ->
     exists evicted,
       Recompute.history s ++ [{| index := count; value := estimate |}]
         = evicted ++ Recompute.history (Recompute.statsEffect s) /\
       length (Recompute.history (Recompute.statsEffect s))
         = Nat.min 100 (length (Recompute.history s) + 1)) /\
  (forall trace,
     let h := Incremental.history (Incremental.run trace) in
     StronglySorted lt (map index h) /\
     NoDup (map index h) /\
     StronglySorted le (map index h)) /\
  (forall (landedBall : Ball) (s : Incremental.State),
     Incremental.history (Incremental.updateStats landedBall s)
     = Incremental.history s ++
       (if (totalInCircle (Incremental.stats s) + 1) mod 10 =? 0
        then [{| index := totalInCircle (Incremental.stats s) + 1;
                 value := estimatedPi
                            (Incremental.stats
                               (Incremental.updateStats landedBall s)) |}]
        else [])).
Proof.
  split; [|split; [|split; [|split]]].
  - intros trace. cbv zeta.
    destruct (RecomputeFacts.Inv_run trace) as [_ _ _ _ _ Ha _ Hl].
    repeat split; auto using StronglySorted_lt_NoDup, StronglySorted_lt_le.
  - intros count estimate h. cbv zeta. apply pushHistory_guarded.
  - intros trace. cbv zeta. intros Hlt Hcad.
    destruct (RecomputeFacts.statsEffect_fires _ Hlt) as (_ & _ & ->).
    rewrite Hcad.
    apply pushHistory_guarded. unfold repeatsLast.
    destruct (0 <? length (Recompute.history (Recompute.run trace))) eqn:E;
      [|reflexivity].
    apply Nat.ltb_lt in E. cbn [andb]. apply Nat.eqb_neq.
    pose proof (indicesUpTo_last _ _
                  (RecomputeFacts.inv_indices _ (RecomputeFacts.Inv_run trace))
                  E).
    lia.
  - intros trace. cbv zeta.
    destruct (IncrementalFacts.tracking_run trace) as [_ _ Ha _].
    repeat split; auto using StronglySorted_lt_NoDup, StronglySorted_lt_le.
  - intros b s. unfold Incremental.updateStats.
    cbn [Incremental.history Incremental.stats estimatedPi].
    destruct (_ =? 0); [reflexivity|]. now rewrite app_nil_r.
Qed.

(* ------------------------------------------------------------------ *)
(** ** Membership in the inscribed square *)

Lemma generateBall_centre (canvasSize : CanvasSize) (d : Draw) :
  (0 <= width canvasSize)%R -> radial d = 0%R ->
  targetX (generateBall canvasSize d) = centerX canvasSize /\
  targetY (generateBall canvasSize d) = centerY canvasSize /\
  inSquare (generateBall canvasSize d) = true.
Proof.
  intros Hw Hu.
  assert (Hx : targetX (generateBall canvasSize d) = centerX canvasSize).
  { rewrite generateBall_targetX, Hu, sqrt_0. ring. }
  assert (Hy : targetY (generateBall canvasSize d) = centerY canvasSize).
  { rewrite generateBall_targetY, Hu, sqrt_0. ring. }
  split; [exact Hx|]. split; [exact Hy|].
  apply generateBall_inSquare_iff. rewrite Hx, Hy.
  replace (centerX canvasSize - centerX canvasSize)%R with 0%R by ring.
  replace (centerY canvasSize - centerY canvasSize)%R with 0%R by ring.
  rewrite Rabs_R0.
  assert (H2 : (0 <= sqrt 2)%R) by apply sqrt_pos.
  assert (Hr : (0 <= radius canvasSize)%R) by (unfold radius; lra).
  assert (0 <= radius canvasSize * sqrt 2)%R by now apply Rmult_le_pos.
  lra.
Qed.

(** One fresh ball in the square, alone in the collection, lands on the
    20th firing of the interval; the statistics are then 1, 1 and 2. *)
Lemma interval_first_landing (b : Ball) (r : bool) :
  status b = falling -> progress b = 0%Q -> inSquare b = true ->
  fold_left Incremental.step (repeat Incremental.Tick 20)
    {| Incremental.balls := [b]; Incremental.stats := zeroStats;
       Incremental.history := []; Incremental.isSimulationRunning := r |}
  = {| Incremental.balls := [land b];
       Incremental.stats :=
         {| totalInCircle := 1; totalInSquare := 1;
            estimatedPi := JS.Finite 2;
            error := errorOf (JS.Finite 2) |};
       Incremental.history := [];
       Incremental.isSimulationRunning := r |}.
Proof.
  destruct b; cbn [status progress inSquare]; intros -> -> ->.
  vm_compute. reflexivity.
Qed.

(** The same ball under the animation frames lands on the 13th; the
    statistics effect then writes 1, 1 and 2 and seeds the history. *)
Lemma frame_first_landing (b : Ball) :
  status b = falling -> progress b = 0%Q -> inSquare b = true ->
  fold_left Recompute.step (repeat Recompute.Frame 13 ++ [Recompute.Effect])
    {| Recompute.balls := [b]; Recompute.stats := zeroStats;
       Recompute.history := [] |}
  = {| Recompute.balls := [land b];
       Recompute.stats :=
         {| totalInCircle := 1; totalInSquare := 1;
            estimatedPi := JS.Finite 2;
            error := errorOf (JS.Finite 2) |};
       Recompute.history := [{| index := 1; value := JS.Finite 2 |}] |}.
Proof.
  destruct b; cbn [status progress inSquare]; intros -> -> ->.
  vm_compute. reflexivity.
Qed.

Lemma incremental_run_cons (a : Incremental.Action)
    (trace : list Incremental.Action) :
  Incremental.run (a :: trace)
  = fold_left Incremental.step trace (Incremental.step Incremental.init a).
Proof. reflexivity. Qed.

Lemma recompute_run_cons (a : Recompute.Action)
    (trace : list Recompute.Action) :
  Recompute.run (a :: trace)
  = fold_left Recompute.step trace (Recompute.step Recompute.init a).
Proof. reflexivity. Qed.

Lemma incremental_first_drop (rand : nat -> Draw) :
  Incremental.step Incremental.init (Incremental.Drop 1 rand)
  = {| Incremental.balls := [generateBall appCanvas (rand 0)];
       Incremental.stats := zeroStats;
       Incremental.history := [];
       Incremental.isSimulationRunning := true |}.
Proof. reflexivity. Qed.

Lemma recompute_first_drop (rand : nat -> Draw) :
  Recompute.step Recompute.init (Recompute.Drop 1 rand)
  = {| Recompute.balls := [generateBall appCanvas (rand 0)];
       Recompute.stats := zeroStats;
       Recompute.history := [] |}.
Proof. reflexivity. Qed.

(** C5.  The membership flag of a generated ball is true exactly when
    both landing coordinates are within half the side of the inscribed
    square ([radius * sqrt 2 / 2]) of the centre.  A ball drawn at the
    centre lands at the centre and is in the square; when it is the
    first and only ball dropped, then once it has landed both
    components show [totalInCircle = totalInSquare = 1] and an estimate
    of 2; so they do in any reachable state whose only landed ball is in
    the square. *)
Theorem inSquare_membership (canvasSize : CanvasSize) (d : Draw)
    (rand : nat -> Draw) :
  (inSquare (generateBall canvasSize d) = true <->
   (Rabs (targetX (generateBall canvasSize d) - centerX canvasSize)
      <= radius canvasSize * sqrt 2 / 2 /\
    Rabs (targetY (generateBall canvasSize d) - centerY canvasSize)
      <= radius canvasSize * sqrt 2 / 2)%R) /\
  ((0 <= width canvasSize)%R -> radial d = 0%R ->
   targetX (generateBall canvasSize d) = centerX canvasSize /\
   targetY (generateBall canvasSize d) = centerY canvasSize /\
   inSquare (generateBall canvasSize d) = true) /\
  (radial (rand 0) = 0%R ->
   let sA :=
     Incremental.run (Incremental.Drop 1 rand :: repeat Incremental.Tick 20) in
   let sB :=
     Recompute.run (Recompute.Drop 1 rand ::
                    repeat Recompute.Frame 13 ++ [Recompute.Effect]) in
   (Incremental.balls sA = [land (generateBall appCanvas (rand 0))] /\
    totalInCircle (Incremental.stats sA) = 1 /\
    totalInSquare (Incremental.stats sA) = 1 /\
    estimatedPi (Incremental.stats sA) = JS.Finite 2) /\
   (Recompute.balls sB = [land (generateBall appCanvas (rand 0))] /\
    totalInCircle (Recompute.stats sB) = 1 /\
    totalInSquare (Recompute.stats sB) = 1 /\
    estimatedPi (Recompute.stats sB) = JS.Finite 2)) /\
  (forall trace,
     let s := Incremental.run trace in
     landedCount (Incremental.balls s) = 1 ->
     inSquareCount (Incremental.balls s) = 1 ->
     totalInCircle (Incremental.stats s) = 1 /\
     totalInSquare (Incremental.stats s) = 1 /\
     estimatedPi (Incremental.stats s) = JS.Finite 2) /\
  (forall trace,
     let s := Recompute.run trace in
     landedCount (Recompute.balls s) = 1 ->
     inSquareCount (Recompute.balls s) = 1 ->
     totalInCircle (Recompute.stats (Recompute.statsEffect s)) = 1 /\
     totalInSquare (Recompute.stats (Recompute.statsEffect s)) = 1 /\
     estimatedPi (Recompute.stats (Recompute.statsEffect s)) = JS.Finite 2).
Proof.
  split; [apply generateBall_inSquare_iff|].
  split; [apply generateBall_centre|].
  split; [|split].
  2:{ intros trace. cbv zeta. intros Hn Hk.
      destruct (IncrementalFacts.tracking_run trace) as [-> _ _ _].
      rewrite Hn, Hk. repeat split. }
  2:{ intros trace. cbv zeta. intros Hn Hk.
      rewrite (RecomputeFacts.statsEffect_tracks _
                 (RecomputeFacts.Inv_run trace)).
      unfold trackerStats. rewrite Hn, Hk. repeat split. }
  intros Hu.
  assert (Hw : (0 <= width appCanvas)%R) by (simpl; lra).
  destruct (generateBall_centre appCanvas (rand 0) Hw Hu) as (_ & _ & Hsq).
  destruct (generateBall_fresh appCanvas (rand 0)) as [Hf Hp].
  cbv zeta. split.
  - rewrite incremental_run_cons, incremental_first_drop.
    rewrite (interval_first_landing _ _ Hf Hp Hsq).
    cbn [Incremental.balls Incremental.stats
         totalInCircle totalInSquare estimatedPi].
    auto.
  - rewrite recompute_run_cons, recompute_first_drop.
    rewrite (frame_first_landing _ Hf Hp Hsq).
    cbn [Recompute.balls Recompute.stats
         totalInCircle totalInSquare estimatedPi].
    auto.
Qed.

(* ------------------------------------------------------------------ *)
(** ** Reset and drop *)

(** C6.  Reset, from any state of either component (so from every
    reachable one), leaves an empty collection, the four statistics at
    0 and an empty history; in the recomputing component that is the
    initial state itself, and in the incremental one the initial state
    up to the running flag, which Reset does not write. *)
Theorem reset_yields_zero_state :
  (forall s : Incremental.State,
     let s' := Incremental.resetSimulation s in
     Incremental.balls s' = [] /\
     totalInCircle (Incremental.stats s') = 0 /\
     totalInSquare (Incremental.stats s') = 0 /\
     estimatedPi (Incremental.stats s') = JS.Finite 0 /\
     error (Incremental.stats s') = JS.Finite 0 /\
     Incremental.history s' = []) /\
  (forall s : Recompute.State,
     let s' := Recompute.resetSimulation s in
     Recompute.balls s' = [] /\
     totalInCircle (Recompute.stats s') = 0 /\
     totalInSquare (Recompute.stats s') = 0 /\
     estimatedPi (Recompute.stats s') = JS.Finite 0 /\
     error (Recompute.stats s') = JS.Finite 0 /\
     Recompute.history s' = []) /\
  (forall trace,
     let s' := Incremental.run (trace ++ [Incremental.Reset]) in
     Incremental.balls s' = Incremental.balls Incremental.init /\
     Incremental.stats s' = Incremental.stats Incremental.init /\
     Incremental.history s' = Incremental.history Incremental.init) /\
  (forall trace,
     Recompute.run (trace ++ [Recompute.Reset]) = Recompute.init).
Proof.
  split; [|split; [|split]].
  - intros s. cbv zeta. repeat split.
  - intros s. cbv zeta. repeat split.
  - intros trace. unfold Incremental.run. rewrite fold_left_app.
    cbv zeta. repeat split.
  - intros trace. unfold Recompute.run. rewrite fold_left_app. reflexivity.
Qed.

(** C7.  A drop of [count] balls, in either component, leaves the
    earlier balls in place and appends the new ones at the end: as many
    as [count] when [count >= 0], each falling with progress 0; it
    leaves statistics and history as they are.  With [count <= 0] the
    collection is unchanged too: the recomputing component's state is
    then unchanged altogether, the incremental one's up to its running
    flag, which every drop sets. *)
Theorem drop_appends_falling_balls (count : Z) (rand : nat -> Draw) :
  (forall s : Incremental.State,
     let s' := Incremental.dropBalls count rand s in
     let new := newBalls appCanvas count rand in
     Incremental.balls s' = Incremental.balls s ++ new /\
     ((0 <= count)%Z -> Z.of_nat (length new) = count) /\
     Forall (fun b => status b = falling /\ progress b = 0%Q) new /\
     Incremental.stats s' = Incremental.stats s /\
     Incremental.history s' = Incremental.history s /\
     Incremental.isSimulationRunning s' = true /\
     ((count <= 0)%Z -> Incremental.balls s' = Incremental.balls s)) /\
  (forall s : Recompute.State,
     let s' := Recompute.dropBalls count rand s in
     let new := newBalls appCanvas count rand in
     Recompute.balls s' = Recompute.balls s ++ new /\
     ((0 <= count)%Z -> Z.of_nat (length new) = count) /\
     Forall (fun b => status b = falling /\ progress b = 0%Q) new /\
     Recompute.stats s' = Recompute.stats s /\
     Recompute.history s' = Recompute.history s /\
     ((count <= 0)%Z -> s' = s)).
Proof.
  assert (Hlen : (0 <= count)%Z ->
                 Z.of_nat (length (newBalls appCanvas count rand)) = count).
  { intros H. rewrite newBalls_length. now apply Z2Nat.id. }
  assert (Hnone : (count <= 0)%Z -> newBalls appCanvas count rand = []).
  { intros H. apply length_zero_iff_nil. rewrite newBalls_length. lia. }
  split; intros s; cbv zeta.
  - split; [reflexivity|]. split; [exact Hlen|].
    split; [apply newBalls_fresh|]. repeat (split; [reflexivity|]).
    intros H. unfold Incremental.dropBalls, Incremental.canvasSize.
    cbn [Incremental.balls]. rewrite (Hnone H). apply app_nil_r.
  - split; [reflexivity|]. split; [exact Hlen|].
    split; [apply newBalls_fresh|]. repeat (split; [reflexivity|]).
    intros H. unfold Recompute.dropBalls, Recompute.canvasSize.
    rewrite (Hnone H), app_nil_r. now destruct s.
Qed.

(* ------------------------------------------------------------------ *)
(** ** The two statistics updates *)

(** Folding [updateStats] over the balls that land, one at a time. *)
Lemma updateStats_fold (landing : list Ball) :
  Incremental.stats
    (fold_left (fun acc b => Incremental.updateStats b acc) landing
       Incremental.init)
  = statsOfCounts (length landing) (length (filter inSquare landing)).
Proof.
  assert (H : forall n k s,
             IncrementalFacts.Tracked n k s ->
             IncrementalFacts.Tracked (n + length landing)
               (k + length (filter inSquare landing))
               (fold_left (fun acc b => Incremental.updateStats b acc)
                  landing s)).
  { induction landing as [|b l IH]; intros n k s Ht; simpl.
    - now rewrite !Nat.add_0_r.
    - apply (IncrementalFacts.updateStats_tracked b) in Ht.
      apply IH in Ht.
      destruct (inSquare b); simpl;
        repeat rewrite <- Nat.add_assoc in Ht; simpl in Ht;
        rewrite ?Nat.add_0_l in Ht; rewrite <- ?plus_n_Sm;
        rewrite <- ?plus_n_Sm in Ht; rewrite ?Nat.add_0_r in Ht;
        exact Ht. }
  destruct (H 0 0 Incremental.init IncrementalFacts.tracking_init) as [Hst _ _ _].
  exact Hst.
Qed.

(** C9.  The incremental statistics (one [updateStats] per landing) and
    the recomputed ones (the statistics effect over the landed subset)
    are the same four values whenever the two components have seen the
    same landings: the same number of landed balls, with the same number
    of them in the square. *)
Theorem statistics_updates_agree (traceA : list Incremental.Action)
    (traceB : list Recompute.Action) :
  let sA := Incremental.run traceA in
  let sB := Recompute.statsEffect (Recompute.run traceB) in
  landedCount (Incremental.balls sA) = landedCount (Recompute.balls sB) ->
  inSquareCount (Incremental.balls sA) = inSquareCount (Recompute.balls sB) ->
  Incremental.stats sA = Recompute.stats sB /\
  Incremental.stats sA = trackerStats (Incremental.balls sA) /\
  Recompute.stats sB = trackerStats (Recompute.balls sB).
Proof.
  cbv zeta. intros Hn Hk.
  pose proof (RecomputeFacts.Inv_run traceB) as HB.
  assert (Eb : Recompute.balls (Recompute.statsEffect (Recompute.run traceB))
               = Recompute.balls (Recompute.run traceB)).
  { destruct (Nat.lt_ge_cases
                (totalInCircle (Recompute.stats (Recompute.run traceB)))
                (landedCount (Recompute.balls (Recompute.run traceB))))
      as [Hlt | Hge].
    - now apply RecomputeFacts.statsEffect_fires.
    - now rewrite RecomputeFacts.statsEffect_idle. }
  assert (EB : Recompute.stats (Recompute.statsEffect (Recompute.run traceB))
               = trackerStats
                   (Recompute.balls (Recompute.statsEffect (Recompute.run traceB)))).
  { rewrite Eb. now apply RecomputeFacts.statsEffect_tracks. }
  assert (EA : Incremental.stats (Incremental.run traceA)
               = trackerStats (Incremental.balls (Incremental.run traceA))).
  { now destruct (IncrementalFacts.tracking_run traceA). }
  split; [|split; assumption].
  rewrite EA, EB. unfold trackerStats. now rewrite Hn, Hk.
Qed.

Lemma statistics_updates_agree_witness :
  landedCount (Incremental.balls (Incremental.run oneLandedA))
  = landedCount
      (Recompute.balls (Recompute.statsEffect (Recompute.run oneLandedB))) /\
  inSquareCount (Incremental.balls (Incremental.run oneLandedA))
  = inSquareCount
      (Recompute.balls (Recompute.statsEffect (Recompute.run oneLandedB))) /\
  Incremental.stats (Incremental.run oneLandedA)
  = Recompute.stats (Recompute.statsEffect (Recompute.run oneLandedB)).
Proof.
  assert (Hn : landedCount (Incremental.balls (Incremental.run oneLandedA))
               = landedCount
                   (Recompute.balls
                      (Recompute.statsEffect (Recompute.run oneLandedB))))
    by (vm_compute; reflexivity).
  assert (Hk : inSquareCount (Incremental.balls (Incremental.run oneLandedA))
               = inSquareCount
                   (Recompute.balls
                      (Recompute.statsEffect (Recompute.run oneLandedB))))
    by (vm_compute; reflexivity).
  split; [exact Hn|]. split; [exact Hk|].
  exact (proj1 (statistics_updates_agree oneLandedA oneLandedB Hn Hk)).
Defined.

(* ------------------------------------------------------------------ *)
(** ** The commentary service *)

Module GeminiFacts.
Import GeminiService.

(** Once the client exists, every path of [getPiInsight] returns: the
    response's text when the call succeeds, the fallback string (with
    the error logged) when it throws. *)
Lemma getPiInsight_recovers {Client : Type} (env : Environment Client)
    (ai : Client) (stats : InsightStats) :
  getAiClient env = Returns ai ->
  (exists response,
     getPiInsight env stats
     = {| logged := []; result := Returns (text response) |}) \/
  (exists err,
     getPiInsight env stats
     = {| logged := [err]; result := Returns (Some fallback) |}).
Proof.
  intros Hai. unfold getPiInsight. rewrite Hai.
  destruct (generateContent env ai _) as [response | err].
  - left. now exists response.
  - right. now exists err.
Qed.

(** The client is built before the [try] block: when the constructor
    throws, so does [getPiInsight], with nothing logged. *)
Lemma getPiInsight_propagates {Client : Type} (env : Environment Client)
    (err : string) (stats : InsightStats) :
  getAiClient env = Throws err ->
  getPiInsight env stats = {| logged := []; result := Throws err |}.
Proof. intros Hai. unfold getPiInsight. now rewrite Hai. Qed.

(** A process with no credential configured, and an SDK whose
    constructor refuses a missing key (as the browser build of the SDK
    does); the service itself is never reached. *)
Definition noCredential : Environment unit :=
  {| API_KEY := None;
     newGoogleGenAI := fun apiKey =>
       match apiKey with
       | Some _ => Returns tt
       | None =>
           Throws "An API Key must be set when running in a browser"%string
       end;
     generateContent := fun _ _ => Throws "unreachable"%string;
     promptOf := fun _ => EmptyString |}.

End GeminiFacts.

(** C10 fails on the code at a missing credential: the promise of
    [getPiInsight] rejects with the constructor's error, where the claim
    promises the fallback string. *)
Theorem getPiInsight_rejects_without_credential
    (stats : GeminiService.InsightStats) :
  GeminiService.result
    (GeminiService.getPiInsight GeminiFacts.noCredential stats)
  = GeminiService.Throws
      "An API Key must be set when running in a browser"%string /\
  GeminiService.result
    (GeminiService.getPiInsight GeminiFacts.noCredential stats)
  <> GeminiService.Returns (Some GeminiService.fallback).
Proof. split; [reflexivity | discriminate]. Qed.

(* ================================================================== *)
(** * Further properties of the components *)

(** ** Balls in flight *)

(** Status and progress go together: a falling ball has progress in
    [0,1), a landed one has progress 1. *)
Definition wellFormed (b : Ball) : Prop :=
  match status b with
  | falling => (0 <= progress b)%Q /\ (progress b < 1)%Q
  | landed => progress b = 1%Q
  end.

(** The fields [generateBall] derives from the landing point and the
    membership flag. *)
Definition asGenerated (b : Ball) : Prop :=
  x b = targetX b /\ y b = (-20)%R /\
  color b = (if inSquare b then "#f472b6"%string else "#38bdf8"%string).

(** The number of balls a trace has dropped since its last reset. *)
Definition droppedA (trace : list Incremental.Action) : nat :=
  fold_left (fun n a =>
               match a with
               | Incremental.Drop count _ => n + JS.toLength count
               | Incremental.Tick => n
               | Incremental.Reset => 0
               end) trace 0.

Definition droppedB (trace : list Recompute.Action) : nat :=
  fold_left (fun n a =>
               match a with
               | Recompute.Drop count _ => n + JS.toLength count
               | Recompute.Frame | Recompute.Effect => n
               | Recompute.Reset => 0
               end) trace 0.

(** A history point holds the estimate of the moment it was recorded:
    that of [index] landed balls, some number of them in the square. *)
Definition recorded (p : HistoryPoint) : Prop :=
  exists k, k <= index p /\ value p = estimateOf (index p) k.

(** The indices the recomputing component records: 1, and the positive
    multiples of 10. *)
Definition onCadence (p : HistoryPoint) : Prop :=
  index p = 1 \/ (0 < index p /\ index p mod 10 = 0).

(** 10, 20, ..., the multiples of 10 up to [n]. *)
Definition decades (n : nat) : list nat :=
  map (fun i => 10 * i) (seq 1 (n / 10)).

Lemma generateBall_wellFormed (c : CanvasSize) (d : Draw) :
  wellFormed (generateBall c d).
Proof. unfold wellFormed. simpl. split; [apply Qle_refl | reflexivity]. Qed.

Lemma generateBall_asGenerated (c : CanvasSize) (d : Draw) :
  asGenerated (generateBall c d).
Proof. repeat split. Qed.

Lemma advance_wellFormed (increment : Q) (b : Ball) :
  (0 <= increment)%Q -> wellFormed b -> wellFormed (advance increment b).
Proof.
  intros Hinc. unfold wellFormed, advance.
  destruct (status b) eqn:E; [|now rewrite E].
  intros [H0 H1]. destruct (Qle_bool 1 _) eqn:Hle; simpl; [reflexivity|].
  rewrite E. split.
  - rewrite <- (Qplus_0_r 0). now apply Qplus_le_compat.
  - apply Qnot_le_lt. intros H. apply Qle_bool_iff in H. congruence.
Qed.

Lemma advance_asGenerated (increment : Q) (b : Ball) :
  asGenerated b -> asGenerated (advance increment b).
Proof.
  unfold advance. destruct (status b); [|auto].
  destruct (Qle_bool 1 _); auto.
Qed.

Lemma advance_identity (increment : Q) (b : Ball) :
  id (advance increment b) = id b /\
  targetX (advance increment b) = targetX b /\
  targetY (advance increment b) = targetY b /\
  inSquare (advance increment b) = inSquare b.
Proof.
  unfold advance. destruct (status b); [|auto].
  destruct (Qle_bool 1 _); auto.
Qed.

Lemma ticks_wellFormed (increment : Q) (k : nat) (b : Ball) :
  (0 <= increment)%Q -> wellFormed b -> wellFormed (ticks increment k b).
Proof.
  intros Hinc Hb. induction k as [|k IH]; simpl; [exact Hb|].
  now apply advance_wellFormed.
Qed.

(** While a ball is still falling after [k] ticks, each tick has added
    the increment to its progress. *)
Lemma ticks_falling_progress (increment : Q) (k : nat) (b : Ball) :
  status (ticks increment k b) = falling ->
  (progress (ticks increment k b) == progress b + ofTicks k * increment)%Q.
Proof.
  induction k as [|k IH]; simpl.
  - intros _. unfold ofTicks. simpl. ring.
  - intros Hf. unfold advance in *.
    destruct (status (ticks increment k b)) eqn:E.
    + destruct (Qle_bool 1 _); simpl in *; [discriminate|].
      rewrite IH by reflexivity. rewrite ofTicks_S. ring.
    + rewrite E in Hf. discriminate.
Qed.

(** A well-formed ball has landed after any number of ticks whose
    increments add up to 1. *)
Lemma ticks_lands (increment : Q) (k : nat) (b : Ball) :
  (0 <= increment)%Q -> (1 <= ofTicks k * increment)%Q -> wellFormed b ->
  status (ticks increment k b) = landed /\
  progress (ticks increment k b) = 1%Q.
Proof.
  intros Hinc Hk Hb.
  pose proof (ticks_wellFormed increment k b Hinc Hb) as Hwf.
  unfold wellFormed in Hwf.
  destruct (status (ticks increment k b)) eqn:E; [exfalso | auto].
  destruct Hwf as [_ Hlt].
  rewrite (ticks_falling_progress increment k b E) in Hlt.
  assert (H0 : (0 <= progress b)%Q).
  { unfold wellFormed in Hb. destruct (status b) eqn:Eb.
    - apply Hb.
    - rewrite ticks_landed in E by exact Eb. congruence. }
  apply (Qlt_not_le _ _ Hlt).
  rewrite <- (Qplus_0_l 1). now apply Qplus_le_compat.
Qed.

Lemma map_ticks_S (increment : Q) (k : nat) (bs : list Ball) :
  map (ticks increment k) (map (advance increment) bs)
  = map (ticks increment (S k)) bs.
Proof.
  rewrite map_map. apply map_ext. intros b.
  replace (S k) with (k + 1) by lia. now rewrite ticks_add.
Qed.

Lemma all_landed_count (bs : list Ball) :
  Forall (fun b => status b = landed) bs ->
  landedCount bs = length bs /\ existsb isFalling bs = false.
Proof.
  unfold landedCount. induction 1 as [|b bs Hb _ [IH1 IH2]]; simpl; [auto|].
  unfold isLanded at 1, isFalling at 1. rewrite Hb. simpl.
  now rewrite IH1, IH2.
Qed.

Lemma decades_next (n : nat) :
  decades (n + 1) =
    if (n + 1) mod 10 =? 0 then decades n ++ [n + 1] else decades n.
Proof.
  pose proof (Nat.div_mod_eq n 10) as Hn.
  pose proof (Nat.div_mod_eq (n + 1) 10) as Hn1.
  pose proof (Nat.mod_upper_bound n 10 ltac:(lia)) as Hr.
  pose proof (Nat.mod_upper_bound (n + 1) 10 ltac:(lia)) as Hr1.
  unfold decades. destruct (_ =? 0) eqn:E.
  - apply Nat.eqb_eq in E.
    replace ((n + 1) / 10) with (S (n / 10)) by lia.
    rewrite seq_S, map_app. cbn [map]. do 2 f_equal. lia.
  - apply Nat.eqb_neq in E.
    replace ((n + 1) / 10) with (n / 10) by lia. reflexivity.
Qed.

(** ** More invariants of the incremental component *)

Module IncrementalMore.
Import Incremental.

(** The history is the series of the multiples of 10 reached so far. *)
Record Cadence (s : State) : Prop := {
  cadence_indices : map index (history s) = decades (totalInCircle (stats s));
  cadence_values : Forall recorded (history s)
}.

Lemma updateStats_cadence (b : Ball) (n k : nat) (s : State) :
  IncrementalFacts.Tracked n k s -> Cadence s -> Cadence (updateStats b s).
Proof.
  intros [Hst Hle _ _] [Hi Hv].
  assert (Ht : totalInCircle (stats s) = n)
    by (rewrite Hst; apply statsOfCounts_total).
  assert (Hq : totalInSquare (stats s) = k)
    by (rewrite Hst; now apply statsOfCounts_square).
  split.
  - unfold updateStats. cbn [history stats totalInCircle].
    rewrite decades_next.
    destruct (_ =? 0); [|exact Hi].
    rewrite map_app, Hi. reflexivity.
  - unfold updateStats. cbn [history].
    destruct (_ =? 0); [|exact Hv].
    apply Forall_app. split; [exact Hv|]. constructor; [|constructor].
    exists (totalInSquare (stats s) + (if inSquare b then 1 else 0)).
    cbn [index value]. split; [|reflexivity].
    rewrite Ht, Hq. destruct (inSquare b); lia.
Qed.

Lemma updateStats_frame (b : Ball) (s : State) :
  balls (updateStats b s) = balls s /\
  isSimulationRunning (updateStats b s) = isSimulationRunning s.
Proof. split; reflexivity. Qed.

Lemma landings_cadence (prev : list Ball) :
  forall (n k : nat) (s : State),
    IncrementalFacts.Tracked n k s -> Cadence s ->
    Cadence (landings prev s) /\
    balls (landings prev s) = balls s /\
    isSimulationRunning (landings prev s) = isSimulationRunning s.
Proof.
  unfold landings.
  induction prev as [|b prev IH]; intros n k s Ht Hc; simpl; [auto|].
  destruct (landsNow increment b).
  - destruct (IH _ _ _ (IncrementalFacts.updateStats_tracked b n k s Ht)
                (updateStats_cadence b n k s Ht Hc)) as (H1 & H2 & H3).
    auto.
  - now apply (IH n k).
Qed.

Lemma intervalTick_balls (s : State) :
  balls (intervalTick s) = map (advance increment) (balls s).
Proof.
  unfold intervalTick. destruct (balls s) eqn:E; [now rewrite E | reflexivity].
Qed.

Lemma intervalTick_flag (s : State) :
  balls s <> [] ->
  isSimulationRunning (intervalTick s) =
    if existsb isFalling (balls s) then isSimulationRunning s else false.
Proof.
  intros Hne. unfold intervalTick.
  destruct (balls s) as [|b0 prev] eqn:E; [congruence|].
  cbn [isSimulationRunning].
  destruct (existsb isFalling (b0 :: prev)); [|reflexivity].
  clear Hne. revert s E. unfold landings.
  assert (H : forall l s,
             isSimulationRunning
               (fold_left (fun acc ball =>
                             if landsNow increment ball
                             then updateStats ball acc else acc) l s)
             = isSimulationRunning s).
  { induction l as [|b l IH]; intros s; simpl; [reflexivity|].
    rewrite IH. now destruct (landsNow increment b). }
  intros s _. apply H.
Qed.

Lemma ticks_balls (k : nat) :
  forall s, balls (fold_left step (repeat Tick k) s)
            = map (ticks increment k) (balls s).
Proof.
  induction k as [|k IH]; intros s; simpl.
  - symmetry. apply map_id.
  - rewrite IH, intervalTick_balls. apply map_ticks_S.
Qed.

Record Inv (s : State) : Prop := {
  inv_tracking : IncrementalFacts.Tracking s;
  inv_cadence : Cadence s;
  inv_wellFormed : Forall wellFormed (balls s);
  inv_asGenerated : Forall asGenerated (balls s);
  inv_flag : isSimulationRunning s = false ->
             existsb isFalling (balls s) = false
}.

Lemma interval_increment_nonneg : (0 <= increment)%Q.
Proof. discriminate. Qed.

Lemma more_init : Inv init.
Proof.
  split; simpl.
  - apply IncrementalFacts.tracking_init.
  - split; [reflexivity | constructor].
  - constructor.
  - constructor.
  - reflexivity.
Qed.

Lemma more_resetSimulation (s : State) : Inv (resetSimulation s).
Proof.
  split; simpl.
  - apply IncrementalFacts.tracking_resetSimulation.
  - split; [reflexivity | constructor].
  - constructor.
  - constructor.
  - reflexivity.
Qed.

Lemma more_dropBalls (count : Z) (rand : nat -> Draw) (s : State) :
  Inv s -> Inv (dropBalls count rand s).
Proof.
  intros [Ht [Hi Hv] Hw Hg Hf]. split.
  - now apply IncrementalFacts.tracking_dropBalls.
  - split; assumption.
  - unfold dropBalls. cbn [balls]. apply Forall_app. split; [exact Hw|].
    apply Forall_forall. intros b Hin. apply in_map_iff in Hin.
    destruct Hin as (i & <- & _). apply generateBall_wellFormed.
  - unfold dropBalls. cbn [balls]. apply Forall_app. split; [exact Hg|].
    apply Forall_forall. intros b Hin. apply in_map_iff in Hin.
    destruct Hin as (i & <- & _). apply generateBall_asGenerated.
  - discriminate.
Qed.

Lemma intervalTick_landings (s : State) :
  stats (intervalTick s) = stats (landings (balls s) s) /\
  history (intervalTick s) = history (landings (balls s) s).
Proof.
  unfold intervalTick. destruct (balls s); split; reflexivity.
Qed.

Lemma more_intervalTick (s : State) : Inv s -> Inv (intervalTick s).
Proof.
  intros [Ht Hc Hw Hg Hf].
  assert (Hcase : balls s = [] \/ balls s <> [])
    by (destruct (balls s); [now left | now right]).
  split.
  - now apply IncrementalFacts.tracking_intervalTick.
  - destruct (landings_cadence (balls s) _ _ s Ht Hc) as ([H1 H2] & _ & _).
    destruct (intervalTick_landings s) as [Es Eh].
    split; rewrite ?Es, ?Eh; assumption.
  - rewrite intervalTick_balls.
    apply Forall_map. eapply Forall_impl; [|exact Hw].
    intros b. apply advance_wellFormed, interval_increment_nonneg.
  - rewrite intervalTick_balls.
    apply Forall_map. eapply Forall_impl; [|exact Hg].
    intros b. apply advance_asGenerated.
  - destruct Hcase as [E | Hne].
    + unfold intervalTick. now rewrite E.
    + rewrite intervalTick_flag, intervalTick_balls by exact Hne.
      destruct (existsb isFalling (balls s)) eqn:Ef.
      * intros H. specialize (Hf H). congruence.
      * intros _. now rewrite advance_none_falling.
Qed.

Lemma more_step (s : State) (a : Action) : Inv s -> Inv (step s a).
Proof.
  destruct a; simpl.
  - apply more_dropBalls.
  - apply more_intervalTick.
  - intros _. apply more_resetSimulation.
Qed.

Lemma more_fold (trace : list Action) :
  forall s, Inv s -> Inv (fold_left step trace s).
Proof.
  induction trace as [|a trace IH]; simpl; [auto|].
  intros s Hs. apply IH. now apply more_step.
Qed.

Lemma more_run (trace : list Action) : Inv (run trace).
Proof. apply more_fold, more_init. Qed.

End IncrementalMore.

(** ** More invariants of the recomputing component *)

Module RecomputeMore.
Import Recompute.

Lemma animate_balls (s : State) :
  balls (animate s) = map (advance increment) (balls s).
Proof.
  unfold animate. cbn [balls].
  destruct (existsb isFalling (balls s)) eqn:E; [reflexivity|].
  symmetry. now apply advance_none_falling.
Qed.

Lemma statsEffect_balls (s : State) : balls (statsEffect s) = balls s.
Proof.
  unfold statsEffect. now destruct (_ <? _).
Qed.

Lemma frames_balls (k : nat) :
  forall s, balls (fold_left step (repeat Frame k) s)
            = map (ticks increment k) (balls s).
Proof.
  induction k as [|k IH]; intros s; simpl.
  - symmetry. apply map_id.
  - rewrite IH, animate_balls. apply map_ticks_S.
Qed.

Lemma frames_stats (k : nat) :
  forall s, stats (fold_left step (repeat Frame k) s) = stats s /\
            history (fold_left step (repeat Frame k) s) = history s.
Proof.
  induction k as [|k IH]; intros s; simpl; [auto|].
  destruct (IH (animate s)) as [-> ->]. auto.
Qed.

Lemma pushHistory_Forall (P : HistoryPoint -> Prop) (n : nat)
    (v : JS.number) (h : list HistoryPoint) :
  Forall P h -> P {| index := n; value := v |} ->
  Forall P (pushHistory n v h).
Proof.
  intros Hh Hp. unfold pushHistory. destruct (_ && _); [exact Hh|].
  destruct (RecomputeFacts.sliceLast_suffix 100
              (h ++ [{| index := n; value := v |}])) as [ev Hev].
  assert (Hall : Forall P (h ++ [{| index := n; value := v |}]))
    by (apply Forall_app; split; [exact Hh | repeat constructor; exact Hp]).
  rewrite Hev in Hall. now apply Forall_app in Hall.
Qed.

Record Inv (s : State) : Prop := {
  inv_wellFormed : Forall wellFormed (balls s);
  inv_asGenerated : Forall asGenerated (balls s);
  inv_cadence : Forall onCadence (history s);
  inv_values : Forall recorded (history s)
}.

Lemma frame_increment_nonneg : (0 <= increment)%Q.
Proof. discriminate. Qed.

Lemma keeps_init : Inv init.
Proof. split; simpl; constructor. Qed.

Lemma keeps_resetSimulation (s : State) : Inv (resetSimulation s).
Proof. split; simpl; constructor. Qed.

Lemma keeps_dropBalls (count : Z) (rand : nat -> Draw) (s : State) :
  Inv s -> Inv (dropBalls count rand s).
Proof.
  intros [Hw Hg Hc Hv]. split; try assumption.
  - unfold dropBalls. cbn [balls]. apply Forall_app. split; [exact Hw|].
    apply Forall_forall. intros b Hin. apply in_map_iff in Hin.
    destruct Hin as (i & <- & _). apply generateBall_wellFormed.
  - unfold dropBalls. cbn [balls]. apply Forall_app. split; [exact Hg|].
    apply Forall_forall. intros b Hin. apply in_map_iff in Hin.
    destruct Hin as (i & <- & _). apply generateBall_asGenerated.
Qed.

Lemma keeps_animate (s : State) : Inv s -> Inv (animate s).
Proof.
  intros [Hw Hg Hc Hv]. split; try assumption.
  - rewrite animate_balls. apply Forall_map.
    eapply Forall_impl; [|exact Hw].
    intros b. apply advance_wellFormed, frame_increment_nonneg.
  - rewrite animate_balls. apply Forall_map.
    eapply Forall_impl; [|exact Hg].
    intros b. apply advance_asGenerated.
Qed.

Lemma keeps_statsEffect (s : State) : Inv s -> Inv (statsEffect s).
Proof.
  intros [Hw Hg Hc Hv].
  destruct (Nat.lt_ge_cases (totalInCircle (stats s)) (landedCount (balls s)))
    as [Hlt | Hge];
    [|rewrite RecomputeFacts.statsEffect_idle by exact Hge; now split].
  destruct (RecomputeFacts.statsEffect_fires s Hlt) as (_ & Eb & Eh).
  split; rewrite ?Eb, ?Eh; try assumption.
  - destruct (_ || _) eqn:E; [|exact Hc].
    apply pushHistory_Forall; [exact Hc|].
    unfold onCadence. cbn [index].
    apply orb_true_iff in E. destruct E as [E | E].
    + right. apply Nat.eqb_eq in E. split; [lia | exact E].
    + left. now apply Nat.eqb_eq in E.
  - destruct (_ || _); [|exact Hv].
    apply pushHistory_Forall; [exact Hv|].
    exists (inSquareCount (balls s)). cbn [index value].
    split; [apply inSquareCount_le | reflexivity].
Qed.

Lemma keeps_step (s : State) (a : Action) : Inv s -> Inv (step s a).
Proof.
  destruct a; simpl.
  - apply keeps_dropBalls.
  - apply keeps_animate.
  - apply keeps_statsEffect.
  - intros _. apply keeps_resetSimulation.
Qed.

Lemma keeps_fold (trace : list Action) :
  forall s, Inv s -> Inv (fold_left step trace s).
Proof.
  induction trace as [|a trace IH]; simpl; [auto|].
  intros s Hs. apply IH. now apply keeps_step.
Qed.

Lemma keeps_run (trace : list Action) : Inv (run trace).
Proof. apply keeps_fold, keeps_init. Qed.

End RecomputeMore.

(* ------------------------------------------------------------------ *)
(** ** The animation loops, ball by ball *)

(** C8.  A firing of the interval and an animation frame apply
    [advance], with the component's increment (0.05, 0.08), to every
    ball of the collection, so after [n] of them every ball has had [n]
    ticks.  For a ball as [generateBall] makes it (falling, progress 0),
    under any number of ticks with a positive increment: its progress
    never decreases and never exceeds 1; there is one tick [k] before
    which it is falling (with progress [n * increment < 1]) and from
    which on it is the landed ball with progress exactly 1, [k] being
    the tick on which the progress would reach or exceed 1; and a tick
    leaves a landed ball as it is. *)
Theorem animator_lands_exactly_once (increment : Q) (ball : Ball) :
  (0 < increment)%Q -> status ball = falling -> progress ball = 0%Q ->
  (forall n,
     (progress (ticks increment n ball)
        <= progress (ticks increment (S n) ball))%Q /\
     (progress (ticks increment (S n) ball) <= 1)%Q) /\
  (exists k, 0 < k /\
     (forall n, n < k ->
        status (ticks increment n ball) = falling /\
        (progress (ticks increment n ball) == ofTicks n * increment)%Q /\
        (progress (ticks increment n ball) < 1)%Q) /\
     (1 <= progress (ticks increment (k - 1) ball) + increment)%Q /\
     (forall n, k <= n ->
        ticks increment n ball = land ball /\
        status (ticks increment n ball) = landed /\
        progress (ticks increment n ball) = 1%Q)) /\
  (forall b : Ball,
     status b = landed ->
     advance increment b = b /\ status (advance increment b) <> falling) /\
  ((0 < Incremental.increment)%Q /\
   (forall s : Incremental.State,
      Incremental.balls (Incremental.intervalTick s)
      = map (advance Incremental.increment) (Incremental.balls s)) /\
   (forall (n : nat) (s : Incremental.State),
      Incremental.balls
        (fold_left Incremental.step (repeat Incremental.Tick n) s)
      = map (ticks Incremental.increment n) (Incremental.balls s))) /\
  ((0 < Recompute.increment)%Q /\
   (forall s : Recompute.State,
      Recompute.balls (Recompute.animate s)
      = map (advance Recompute.increment) (Recompute.balls s)) /\
   (forall (n : nat) (s : Recompute.State),
      Recompute.balls
        (fold_left Recompute.step (repeat Recompute.Frame n) s)
      = map (ticks Recompute.increment n) (Recompute.balls s))).
Proof.
  intros Hpos Hf H0. split; [|split; [|split; [|split]]].
  - intros n. now apply progress_step.
  - destruct (landing_tick increment ball Hpos Hf H0)
      as (k & Hk & Hbefore & Hat & Hafter).
    exists k. split; [exact Hk|]. split; [exact Hbefore|].
    split; [exact Hat|]. intros n Hn. rewrite (Hafter n Hn). now simpl.
  - intros b Hb. rewrite advance_landed by exact Hb.
    split; [reflexivity | congruence].
  - split; [reflexivity|]. split.
    + apply IncrementalMore.intervalTick_balls.
    + intros n s. apply IncrementalMore.ticks_balls.
  - split; [reflexivity|]. split.
    + apply RecomputeMore.animate_balls.
    + intros n s. apply RecomputeMore.frames_balls.
Qed.

(** One ball drawn off the centre, dropped on the empty collection of
    the recomputing component, through its animation frames. *)
Lemma animator_lands_exactly_once_witness :
  (0 < Recompute.increment)%Q /\
  status (generateBall appCanvas quarterDraw) = falling /\
  progress (generateBall appCanvas quarterDraw) = 0%Q /\
  exists k, 0 < k /\
    forall n, k <= n ->
      Recompute.balls
        (fold_left Recompute.step (repeat Recompute.Frame n)
           {| Recompute.balls := [generateBall appCanvas quarterDraw];
              Recompute.stats := zeroStats;
              Recompute.history := [] |})
      = [land (generateBall appCanvas quarterDraw)].
Proof.
  split; [reflexivity|]. split; [reflexivity|]. split; [reflexivity|].
  destruct (animator_lands_exactly_once Recompute.increment
              (generateBall appCanvas quarterDraw)
              eq_refl eq_refl eq_refl)
    as (_ & (k & Hk & _ & _ & Hafter) & _ & _ & (_ & _ & Hframes)).
  exists k. split; [exact Hk|]. intros n Hn.
  rewrite Hframes. cbn [Recompute.balls map].
  destruct (Hafter n Hn) as [-> _]. reflexivity.
Defined.

(* ------------------------------------------------------------------ *)
(** ** Status, progress and the generated fields *)

(** X1.  In every reachable state of either component every ball is
    falling with progress in [0,1) or landed with progress exactly 1. *)
Theorem balls_status_matches_progress :
  (forall trace,
     Forall (fun b =>
               (status b = falling /\ (0 <= progress b)%Q /\ (progress b < 1)%Q)
               \/ (status b = landed /\ progress b = 1%Q))
            (Incremental.balls (Incremental.run trace))) /\
  (forall trace,
     Forall (fun b =>
               (status b = falling /\ (0 <= progress b)%Q /\ (progress b < 1)%Q)
               \/ (status b = landed /\ progress b = 1%Q))
            (Recompute.balls (Recompute.run trace))).
Proof.
  assert (H : forall b, wellFormed b ->
                (status b = falling /\ (0 <= progress b)%Q /\ (progress b < 1)%Q)
                \/ (status b = landed /\ progress b = 1%Q)).
  { intros b. unfold wellFormed. destruct (status b); intuition. }
  split; intros trace.
  - eapply Forall_impl; [exact H|]. apply IncrementalMore.more_run.
  - eapply Forall_impl; [exact H|]. apply RecomputeMore.keeps_run.
Qed.

(** X2.  In every reachable state of either component every ball still
    has the fields [generateBall] gave it: [x] is the landing abscissa,
    [y] is -20, and the colour is pink exactly when the ball is in the
    square (blue otherwise). *)
Theorem balls_colour_matches_membership :
  (forall trace,
     Forall (fun b =>
               x b = targetX b /\ y b = (-20)%R /\
               (color b = "#f472b6"%string <-> inSquare b = true) /\
               (color b = "#38bdf8"%string <-> inSquare b = false))
            (Incremental.balls (Incremental.run trace))) /\
  (forall trace,
     Forall (fun b =>
               x b = targetX b /\ y b = (-20)%R /\
               (color b = "#f472b6"%string <-> inSquare b = true) /\
               (color b = "#38bdf8"%string <-> inSquare b = false))
            (Recompute.balls (Recompute.run trace))).
Proof.
  assert (H : forall b, asGenerated b ->
                x b = targetX b /\ y b = (-20)%R /\
                (color b = "#f472b6"%string <-> inSquare b = true) /\
                (color b = "#38bdf8"%string <-> inSquare b = false)).
  { intros b (Hx & Hy & Hc). split; [exact Hx|]. split; [exact Hy|].
    rewrite Hc. destruct (inSquare b); split; split;
      intros; try reflexivity; discriminate. }
  split; intros trace.
  - eapply Forall_impl; [exact H|]. apply IncrementalMore.more_run.
  - eapply Forall_impl; [exact H|]. apply RecomputeMore.keeps_run.
Qed.

(* ------------------------------------------------------------------ *)
(** ** Every ball lands, and is counted *)

Lemma droppedA_length (trace : list Incremental.Action) :
  length (Incremental.balls (Incremental.run trace)) = droppedA trace.
Proof.
  unfold Incremental.run, droppedA.
  assert (H : forall s n,
             length (Incremental.balls s) = n ->
             length (Incremental.balls (fold_left Incremental.step trace s))
             = fold_left (fun n a =>
                            match a with
                            | Incremental.Drop count _ => n + JS.toLength count
                            | Incremental.Tick => n
                            | Incremental.Reset => 0
                            end) trace n).
  { induction trace as [|a trace IH]; intros s n Hn; simpl; [exact Hn|].
    apply IH. destruct a; simpl.
    - rewrite length_app, newBalls_length, Hn. reflexivity.
    - rewrite IncrementalMore.intervalTick_balls, length_map. exact Hn.
    - reflexivity. }
  now apply H.
Qed.

Lemma droppedB_length (trace : list Recompute.Action) :
  length (Recompute.balls (Recompute.run trace)) = droppedB trace.
Proof.
  unfold Recompute.run, droppedB.
  assert (H : forall s n,
             length (Recompute.balls s) = n ->
             length (Recompute.balls (fold_left Recompute.step trace s))
             = fold_left (fun n a =>
                            match a with
                            | Recompute.Drop count _ => n + JS.toLength count
                            | Recompute.Frame | Recompute.Effect => n
                            | Recompute.Reset => 0
                            end) trace n).
  { induction trace as [|a trace IH]; intros s n Hn; simpl; [exact Hn|].
    apply IH. destruct a; cbn [Recompute.step].
    - unfold Recompute.dropBalls. cbn [Recompute.balls].
      rewrite length_app, newBalls_length, Hn. reflexivity.
    - rewrite RecomputeMore.animate_balls, length_map. exact Hn.
    - rewrite RecomputeMore.statsEffect_balls. exact Hn.
    - reflexivity. }
  now apply H.
Qed.

Lemma interval_lands_every_ball_aux (trace : list Incremental.Action) :
  Forall (fun b => status b = landed /\ progress b = 1%Q)
    (Incremental.balls
       (Incremental.run (trace ++ repeat Incremental.Tick 20))) /\
  existsb isFalling
    (Incremental.balls
       (Incremental.run (trace ++ repeat Incremental.Tick 20))) = false.
Proof.
  assert (Hb : Incremental.balls
                 (Incremental.run (trace ++ repeat Incremental.Tick 20))
               = map (ticks Incremental.increment 20)
                     (Incremental.balls (Incremental.run trace))).
  { unfold Incremental.run. rewrite fold_left_app.
    apply IncrementalMore.ticks_balls. }
  assert (Hall : Forall (fun b => status b = landed /\ progress b = 1%Q)
                   (Incremental.balls
                      (Incremental.run (trace ++ repeat Incremental.Tick 20)))).
  { rewrite Hb. apply Forall_map.
    eapply Forall_impl;
      [|exact (IncrementalMore.inv_wellFormed _
                 (IncrementalMore.more_run trace))].
    intros b Hw. apply ticks_lands; [discriminate | discriminate | exact Hw]. }
  split; [exact Hall|]. apply all_landed_count.
  eapply Forall_impl; [|exact Hall]. now intros b [H _].
Qed.

(** X3.  Incremental component: 20 firings of the interval after any
    sequence of actions leave every ball landed with progress 1, and
    [totalInCircle] is then the size of the collection, which is the
    number of balls dropped since the last reset. *)
Theorem interval_lands_every_ball (trace : list Incremental.Action) :
  let s := Incremental.run (trace ++ repeat Incremental.Tick 20) in
  Forall (fun b => status b = landed /\ progress b = 1%Q)
         (Incremental.balls s) /\
  totalInCircle (Incremental.stats s) = length (Incremental.balls s) /\
  length (Incremental.balls s) = droppedA trace.
Proof.
  cbv zeta.
  assert (Hb : Incremental.balls
                 (Incremental.run (trace ++ repeat Incremental.Tick 20))
               = map (ticks Incremental.increment 20)
                     (Incremental.balls (Incremental.run trace))).
  { unfold Incremental.run. rewrite fold_left_app.
    apply IncrementalMore.ticks_balls. }
  assert (Hall : Forall (fun b => status b = landed /\ progress b = 1%Q)
                   (Incremental.balls
                      (Incremental.run (trace ++ repeat Incremental.Tick 20)))).
  { rewrite Hb. apply Forall_map.
    eapply Forall_impl;
      [|exact (IncrementalMore.inv_wellFormed _
                 (IncrementalMore.more_run trace))].
    intros b Hw. apply ticks_lands; [discriminate | discriminate | exact Hw]. }
  split; [exact Hall|]. split.
  - destruct (IncrementalFacts.tracking_run
                (trace ++ repeat Incremental.Tick 20)) as [-> _ _ _].
    rewrite statsOfCounts_total. apply all_landed_count.
    eapply Forall_impl; [|exact Hall]. now intros b [H _].
  - rewrite Hb, length_map. apply droppedA_length.
Qed.

(** X4.  Recomputing component: 13 animation frames after any sequence
    of actions leave every ball landed with progress 1; once the
    statistics effect has run, [totalInCircle] is the size of the
    collection, which is the number of balls dropped since the last
    reset, and [totalInSquare] is the number of them in the square. *)
Theorem frames_land_every_ball (trace : list Recompute.Action) :
  let s := Recompute.run
             (trace ++ repeat Recompute.Frame 13 ++ [Recompute.Effect]) in
  Forall (fun b => status b = landed /\ progress b = 1%Q)
         (Recompute.balls s) /\
  totalInCircle (Recompute.stats s) = length (Recompute.balls s) /\
  totalInSquare (Recompute.stats s)
    = length (filter inSquare (Recompute.balls s)) /\
  length (Recompute.balls s) = droppedB trace.
Proof.
  cbv zeta.
  rewrite app_assoc.
  set (tr := trace ++ repeat Recompute.Frame 13).
  assert (Hs : Recompute.run (tr ++ [Recompute.Effect])
               = Recompute.statsEffect (Recompute.run tr)).
  { unfold Recompute.run. now rewrite fold_left_app. }
  assert (Hb : Recompute.balls (Recompute.run tr)
               = map (ticks Recompute.increment 13)
                     (Recompute.balls (Recompute.run trace))).
  { unfold tr, Recompute.run. rewrite fold_left_app.
    apply RecomputeMore.frames_balls. }
  assert (Hall : Forall (fun b => status b = landed /\ progress b = 1%Q)
                   (Recompute.balls (Recompute.run tr))).
  { rewrite Hb. apply Forall_map.
    eapply Forall_impl;
      [|exact (RecomputeMore.inv_wellFormed _
                 (RecomputeMore.keeps_run trace))].
    intros b Hw. apply ticks_lands; [discriminate | discriminate | exact Hw]. }
  assert (Hl : Forall (fun b => status b = landed)
                 (Recompute.balls (Recompute.run tr)))
    by (eapply Forall_impl; [|exact Hall]; now intros b [H _]).
  assert (Hf : filter isLanded (Recompute.balls (Recompute.run tr))
               = Recompute.balls (Recompute.run tr)).
  { clear - Hl. induction Hl as [|b l Hb _ IH]; simpl; [reflexivity|].
    unfold isLanded at 1. rewrite Hb. simpl. now rewrite IH. }
  rewrite Hs, RecomputeMore.statsEffect_balls.
  rewrite (RecomputeFacts.statsEffect_tracks _ (RecomputeFacts.Inv_run tr)).
  unfold trackerStats.
  rewrite statsOfCounts_total, statsOfCounts_square
    by apply inSquareCount_le.
  split; [exact Hall|]. split; [now apply all_landed_count|].
  split; [unfold inSquareCount; now rewrite Hf|].
  rewrite Hb, length_map. apply droppedB_length.
Qed.

(* ------------------------------------------------------------------ *)
(** ** The collection between drops *)

(** What a ball is, apart from its animation. *)
Definition landingOf (b : Ball) : string * R * R * bool :=
  (id b, targetX b, targetY b, inSquare b).

Lemma map_advance_landingOf (increment : Q) (bs : list Ball) :
  map landingOf (map (advance increment) bs) = map landingOf bs.
Proof.
  rewrite map_map. apply map_ext. intros b. unfold landingOf.
  destruct (advance_identity increment b) as (-> & -> & -> & ->).
  reflexivity.
Qed.

(** X5.  A firing of the interval, an animation frame and a run of the
    statistics effect keep every ball in place with its identity,
    landing point and membership flag; and in every reachable state the
    collection holds as many balls as were dropped since the last
    reset. *)
Theorem animation_keeps_the_collection :
  (forall s : Incremental.State,
     map landingOf (Incremental.balls (Incremental.intervalTick s))
     = map landingOf (Incremental.balls s)) /\
  (forall s : Recompute.State,
     map landingOf (Recompute.balls (Recompute.animate s))
     = map landingOf (Recompute.balls s)) /\
  (forall s : Recompute.State,
     Recompute.balls (Recompute.statsEffect s) = Recompute.balls s) /\
  (forall trace,
     length (Incremental.balls (Incremental.run trace)) = droppedA trace) /\
  (forall trace,
     length (Recompute.balls (Recompute.run trace)) = droppedB trace).
Proof.
  split; [|split; [|split; [|split]]].
  - intros s. rewrite IncrementalMore.intervalTick_balls.
    apply map_advance_landingOf.
  - intros s. rewrite RecomputeMore.animate_balls.
    apply map_advance_landingOf.
  - apply RecomputeMore.statsEffect_balls.
  - apply droppedA_length.
  - apply droppedB_length.
Qed.

(* ------------------------------------------------------------------ *)
(** ** The running flag of the incremental component *)

Lemma ticks_on_empty (k : nat) (s : Incremental.State) :
  Incremental.balls s = [] ->
  fold_left Incremental.step (repeat Incremental.Tick k) s = s.
Proof.
  intros E.
  assert (Ht : Incremental.intervalTick s = s)
    by (unfold Incremental.intervalTick; now rewrite E).
  induction k as [|k IH]; simpl; [reflexivity|]. now rewrite Ht.
Qed.

(** X6.  [isSimulationRunning] in the incremental component: whenever
    it is false no ball is falling; 21 firings of the interval after any
    sequence of actions clear it, unless the collection is empty; and on
    an empty collection nothing clears it: after a drop of no balls onto
    an empty collection it stays true through any number of ticks. *)
Theorem running_flag_behaviour :
  (forall trace,
     Incremental.isSimulationRunning (Incremental.run trace) = false ->
     existsb isFalling (Incremental.balls (Incremental.run trace)) = false) /\
  (forall trace,
     let s := Incremental.run (trace ++ repeat Incremental.Tick 21) in
     Incremental.balls s = [] \/ Incremental.isSimulationRunning s = false) /\
  (forall trace count rand k,
     (count <= 0)%Z ->
     let s := Incremental.run
                (trace ++ [Incremental.Reset; Incremental.Drop count rand]
                 ++ repeat Incremental.Tick k) in
     Incremental.balls s = [] /\ Incremental.isSimulationRunning s = true).
Proof.
  split; [|split].
  - intros trace. apply IncrementalMore.more_run.
  - intros trace. cbv zeta.
    replace (repeat Incremental.Tick 21)
      with (repeat Incremental.Tick 20 ++ [Incremental.Tick])
      by reflexivity.
    rewrite app_assoc.
    set (tr := trace ++ repeat Incremental.Tick 20).
    destruct (interval_lands_every_ball_aux trace) as [Hl Hb].
    fold tr in Hl, Hb.
    assert (Hs : Incremental.run (tr ++ [Incremental.Tick])
                 = Incremental.intervalTick (Incremental.run tr)).
    { unfold Incremental.run. now rewrite fold_left_app. }
    rewrite Hs.
    destruct (Incremental.balls (Incremental.run tr)) eqn:E.
    + left. rewrite IncrementalMore.intervalTick_balls, E. reflexivity.
    + right. rewrite IncrementalMore.intervalTick_flag
        by (rewrite E; discriminate).
      rewrite E, Hb. reflexivity.
  - intros trace count rand k Hc. cbv zeta.
    unfold Incremental.run. rewrite fold_left_app.
    change (fold_left Incremental.step
              ([Incremental.Reset; Incremental.Drop count rand]
               ++ repeat Incremental.Tick k)
              (fold_left Incremental.step trace Incremental.init))
      with (fold_left Incremental.step (repeat Incremental.Tick k)
              (Incremental.dropBalls count rand
                 (Incremental.resetSimulation
                    (fold_left Incremental.step trace Incremental.init)))).
    assert (E : Incremental.balls
                  (Incremental.dropBalls count rand
                     (Incremental.resetSimulation
                        (fold_left Incremental.step trace Incremental.init)))
                = []).
    { unfold Incremental.dropBalls, Incremental.resetSimulation.
      cbn [Incremental.balls app].
      apply length_zero_iff_nil. rewrite newBalls_length.
      unfold JS.toLength. lia. }
    rewrite (ticks_on_empty k _ E). split; [exact E | reflexivity].
Qed.

(* ------------------------------------------------------------------ *)
(** ** What the history holds *)

(** X7.  Incremental component: in every reachable state the history's
    indices are exactly 10, 20, ... up to the largest multiple of 10 not
    above [totalInCircle], so it has [totalInCircle / 10] points; and
    every point holds the estimate of the moment it was recorded. *)
Theorem incremental_history_is_the_decades (trace : list Incremental.Action) :
  let s := Incremental.run trace in
  map index (Incremental.history s)
    = map (fun i => 10 * i)
          (seq 1 (totalInCircle (Incremental.stats s) / 10)) /\
  length (Incremental.history s) = totalInCircle (Incremental.stats s) / 10 /\
  Forall (fun p => exists k, k <= index p /\
                             value p = estimateOf (index p) k)
         (Incremental.history s).
Proof.
  cbv zeta.
  destruct (IncrementalMore.inv_cadence _ (IncrementalMore.more_run trace))
    as [Hi Hv].
  split; [exact Hi|]. split; [|exact Hv].
  rewrite <- (length_map index), Hi. unfold decades.
  now rewrite length_map, length_seq.
Qed.

(** X8.  Recomputing component: in every reachable state every history
    point has index 1 or a positive multiple of 10, no index is above
    [totalInCircle], and every point holds the estimate of the moment
    it was recorded. *)
Theorem recompute_history_cadence (trace : list Recompute.Action) :
  let s := Recompute.run trace in
  Forall (fun p => index p = 1 \/ (0 < index p /\ index p mod 10 = 0))
         (Recompute.history s) /\
  Forall (fun p => index p <= totalInCircle (Recompute.stats s))
         (Recompute.history s) /\
  Forall (fun p => exists k, k <= index p /\
                             value p = estimateOf (index p) k)
         (Recompute.history s).
Proof.
  cbv zeta.
  destruct (RecomputeMore.keeps_run trace) as [_ _ Hc Hv].
  split; [exact Hc|]. split; [|exact Hv].
  apply (RecomputeFacts.inv_indices _ (RecomputeFacts.Inv_run trace)).
Qed.

(* ------------------------------------------------------------------ *)
(** ** Bounds on the estimate and its error *)

Lemma ofNat_pos (k : nat) : 0 < k -> (0 < inject_Z (Z.of_nat k))%Q.
Proof.
  intros Hk. change 0%Q with (inject_Z 0). rewrite <- Zlt_Qlt. lia.
Qed.

Lemma estimateOf_bounds (n k : nat) :
  0 < k <= n ->
  exists q, estimateOf n k = JS.Finite q /\
            (2 <= q)%Q /\ (q <= inject_Z (Z.of_nat (2 * n)))%Q.
Proof.
  intros [Hk Hle]. unfold estimateOf.
  replace (0 <? k) with true by (symmetry; now apply Nat.ltb_lt).
  unfold JS.div, JS.ofNat. rewrite ofNat_nonzero by exact Hk.
  eexists. split; [reflexivity|]. split.
  - apply Qle_shift_div_l; [now apply ofNat_pos|].
    change 2%Q with (inject_Z 2). rewrite <- inject_Z_mult, <- Zle_Qle. lia.
  - apply Qle_shift_div_r; [now apply ofNat_pos|].
    rewrite <- inject_Z_mult, <- Zle_Qle. nia.
Qed.

(** The estimate is 0 (no square hit yet) or a finite number between 2
    and twice the total. *)
Definition estimateInRange (st : SimulationStats) : Prop :=
  exists q, estimatedPi st = JS.Finite q /\
    (totalInSquare st = 0 -> q = 0%Q) /\
    (0 < totalInSquare st ->
     (2 <= q)%Q /\ (q <= inject_Z (Z.of_nat (2 * totalInCircle st)))%Q).

Lemma statsOfCounts_inRange (n k : nat) :
  k <= n -> estimateInRange (statsOfCounts n k).
Proof.
  intros Hle. unfold estimateInRange.
  rewrite statsOfCounts_estimate, statsOfCounts_total,
    statsOfCounts_square by exact Hle.
  destruct k as [|k].
  - exists 0%Q. split; [reflexivity|]. split; [reflexivity | lia].
  - destruct (estimateOf_bounds n (S k)) as (q & Hq & H2 & Hn); [lia|].
    exists q. split; [exact Hq|]. split; [lia | auto].
Qed.

(** X9.  In every reachable state of either component the estimate is
    the number 0 while there is no square hit, and otherwise a finite
    number that is at least 2 and at most twice [totalInCircle]. *)
Theorem estimate_is_zero_or_at_least_two :
  (forall trace, estimateInRange (Incremental.stats (Incremental.run trace))) /\
  (forall trace, estimateInRange (Recompute.stats (Recompute.run trace))).
Proof.
  split; intros trace.
  - destruct (IncrementalFacts.tracking_run trace) as [-> Hle _ _].
    now apply statsOfCounts_inRange.
  - destruct (RecomputeFacts.Inv_run trace) as [H1 Hle _ _ _ _ _ _].
    rewrite H1. now apply statsOfCounts_inRange.
Qed.

(** [Math.PI] as a rational. *)
Definition doublePI : Q := 884279719003555 # 281474976710656.

(** The error is a finite, non-negative number: 0 before the first
    landing, and afterwards the distance of the estimate from [Math.PI]
    relative to [Math.PI], which is 1 while there is no square hit. *)
Definition errorInRange (st : SimulationStats) : Prop :=
  exists q e, estimatedPi st = JS.Finite q /\ error st = JS.Finite e /\
    (0 <= e)%Q /\
    (totalInCircle st = 0 -> e = 0%Q) /\
    (0 < totalInCircle st -> (e == Qabs (doublePI - q) / doublePI)%Q) /\
    (0 < totalInCircle st -> totalInSquare st = 0 -> (e == 1)%Q).

Lemma errorOf_finite (q : Q) :
  errorOf (JS.Finite q) = JS.Finite (Qabs (doublePI - q) / doublePI).
Proof. reflexivity. Qed.

Lemma statsOfCounts_errorInRange (n k : nat) :
  k <= n -> errorInRange (statsOfCounts n k).
Proof.
  intros Hle. destruct n as [|n].
  - exists 0%Q, 0%Q. simpl. repeat split; try reflexivity; try lia.
    apply Qle_refl.
  - destruct (statsOfCounts_inRange (S n) k Hle) as (q & Hq & H0 & _).
    rewrite statsOfCounts_square in H0 by exact Hle.
    exists q, (Qabs (doublePI - q) / doublePI)%Q.
    split; [exact Hq|]. split.
    + cbn [statsOfCounts error].
      rewrite statsOfCounts_estimate in Hq by exact Hle.
      rewrite Hq. apply errorOf_finite.
    + split; [|split; [|split]].
      * apply Qle_shift_div_l; [reflexivity|].
        rewrite Qmult_0_l. apply Qabs_nonneg.
      * simpl. lia.
      * reflexivity.
      * intros _. rewrite statsOfCounts_square by exact Hle.
        intros Hk. rewrite (H0 Hk). reflexivity.
Qed.

(** X10.  In every reachable state of either component the error is a
    finite, non-negative number: 0 before the first landing (the zero
    default, although the estimate 0 is then also on display), the
    relative distance of the estimate from [Math.PI] afterwards, and 1
    while balls have landed but none in the square. *)
Theorem error_is_relative_distance :
  (forall trace, errorInRange (Incremental.stats (Incremental.run trace))) /\
  (forall trace, errorInRange (Recompute.stats (Recompute.run trace))).
Proof.
  split; intros trace.
  - destruct (IncrementalFacts.tracking_run trace) as [-> Hle _ _].
    now apply statsOfCounts_errorInRange.
  - destruct (RecomputeFacts.Inv_run trace) as [H1 Hle _ _ _ _ _ _].
    rewrite H1. now apply statsOfCounts_errorInRange.
Qed.

(* ------------------------------------------------------------------ *)
(** ** The statistics effect, run again *)

(** X11.  The statistics effect is idempotent on every state: a second
    run right after the first changes nothing, so no landed ball is
    counted twice and no history point recorded twice. *)
Theorem statsEffect_idempotent (s : Recompute.State) :
  Recompute.statsEffect (Recompute.statsEffect s) = Recompute.statsEffect s.
Proof.
  destruct (Nat.lt_ge_cases (totalInCircle (Recompute.stats s))
              (landedCount (Recompute.balls s))) as [Hlt | Hge].
  - apply RecomputeFacts.statsEffect_idle.
    destruct (RecomputeFacts.statsEffect_fires s Hlt) as (-> & -> & _).
    unfold trackerStats. rewrite statsOfCounts_total. lia.
  - rewrite (RecomputeFacts.statsEffect_idle s Hge).
    exact (RecomputeFacts.statsEffect_idle s Hge).
Qed.

Lemma landings_none_falling (prev : list Ball) (s : Incremental.State) :
  existsb isFalling prev = false -> Incremental.landings prev s = s.
Proof.
  unfold Incremental.landings. revert s.
  induction prev as [|b prev IH]; intros s; simpl; [reflexivity|].
  intros H. apply orb_false_iff in H. destruct H as [Hb Hp].
  unfold landsNow. rewrite Hb. simpl. now apply IH.
Qed.

(** X12.  Once no ball is falling the animation changes nothing: an
    animation frame returns the state as it is, and a firing of the
    interval leaves balls, statistics and history as they are. *)
Theorem nothing_falling_nothing_moves :
  (forall s : Recompute.State,
     existsb isFalling (Recompute.balls s) = false ->
     Recompute.animate s = s) /\
  (forall s : Incremental.State,
     existsb isFalling (Incremental.balls s) = false ->
     Incremental.balls (Incremental.intervalTick s) = Incremental.balls s /\
     Incremental.stats (Incremental.intervalTick s) = Incremental.stats s /\
     Incremental.history (Incremental.intervalTick s) = Incremental.history s).
Proof.
  split; intros s H.
  - unfold Recompute.animate. rewrite H. now destruct s.
  - destruct (IncrementalMore.intervalTick_landings s) as [-> ->].
    rewrite IncrementalMore.intervalTick_balls.
    rewrite advance_none_falling, landings_none_falling by exact H.
    auto.
Qed.

(* ------------------------------------------------------------------ *)
(** ** Counters only grow *)

Lemma incremental_run_snoc (trace : list Incremental.Action)
    (a : Incremental.Action) :
  Incremental.run (trace ++ [a]) = Incremental.step (Incremental.run trace) a.
Proof. unfold Incremental.run. now rewrite fold_left_app. Qed.

Lemma recompute_run_snoc (trace : list Recompute.Action)
    (a : Recompute.Action) :
  Recompute.run (trace ++ [a]) = Recompute.step (Recompute.run trace) a.
Proof. unfold Recompute.run. now rewrite fold_left_app. Qed.

(** X13.  Except for Reset, no action of either component lowers
    [totalInCircle] or [totalInSquare] of a reachable state. *)
Theorem counters_never_decrease :
  (forall trace a,
     a = Incremental.Reset \/
     (totalInCircle (Incremental.stats (Incremental.run trace))
        <= totalInCircle (Incremental.stats (Incremental.run (trace ++ [a]))) /\
      totalInSquare (Incremental.stats (Incremental.run trace))
        <= totalInSquare (Incremental.stats (Incremental.run (trace ++ [a]))))) /\
  (forall trace a,
     a = Recompute.Reset \/
     (totalInCircle (Recompute.stats (Recompute.run trace))
        <= totalInCircle (Recompute.stats (Recompute.run (trace ++ [a]))) /\
      totalInSquare (Recompute.stats (Recompute.run trace))
        <= totalInSquare (Recompute.stats (Recompute.run (trace ++ [a]))))).
Proof.
  split; intros trace a.
  - destruct a as [count rand | |]; [right | right | now left].
    + rewrite incremental_run_snoc. simpl. auto.
    + destruct (IncrementalFacts.tracking_run (trace ++ [Incremental.Tick]))
        as [-> Hle' _ _].
      destruct (IncrementalFacts.tracking_run trace) as [-> Hle _ _].
      rewrite !statsOfCounts_total, !statsOfCounts_square by assumption.
      rewrite incremental_run_snoc. cbn [Incremental.step].
      rewrite IncrementalMore.intervalTick_balls.
      rewrite landedCount_advance, inSquareCount_advance. lia.
  - destruct a as [count rand | | |]; [right | right | right | now left].
    + rewrite recompute_run_snoc. simpl. auto.
    + rewrite recompute_run_snoc. simpl. auto.
    + rewrite recompute_run_snoc. cbn [Recompute.step].
      pose proof (RecomputeFacts.Inv_run trace) as Hinv.
      rewrite (RecomputeFacts.statsEffect_tracks _ Hinv).
      unfold trackerStats.
      rewrite statsOfCounts_total, statsOfCounts_square
        by apply inSquareCount_le.
      destruct Hinv as [_ _ H3 H4 _ _ _ _]. auto.
Qed.

(* ------------------------------------------------------------------ *)
(** ** Landing order *)

Lemma filter_length_Permutation (f : Ball -> bool) (l l' : list Ball) :
  Permutation l l' -> length (filter f l) = length (filter f l').
Proof.
  induction 1 as [|b l l' _ IH|a b l|l1 l2 l3 _ IH1 _ IH2]; simpl.
  - reflexivity.
  - destruct (f b); simpl; now rewrite IH.
  - destruct (f a), (f b); reflexivity.
  - now rewrite IH1.
Qed.

(** [updateStats] for each ball of a non-empty landing sequence, from
    any state: the counters grow by the number of balls and of square
    hits, and estimate and error are those of the new counters. *)
Lemma updateStats_fold_from (landing : list Ball) :
  forall s : Incremental.State,
    landing <> [] ->
    Incremental.stats
      (fold_left (fun acc b => Incremental.updateStats b acc) landing s)
    = let n := totalInCircle (Incremental.stats s) + length landing in
      let k := totalInSquare (Incremental.stats s)
               + length (filter inSquare landing) in
      {| totalInCircle := n; totalInSquare := k;
         estimatedPi := estimateOf n k;
         error := errorOf (estimateOf n k) |}.
Proof.
  induction landing as [|b l IH]; intros s Hne; [congruence|].
  cbn [fold_left]. destruct l as [|b' l'].
  - cbn [fold_left]. rewrite IncrementalFacts.updateStats_stats.
    cbv zeta. cbn [length filter].
    destruct (inSquare b); reflexivity.
  - rewrite IH by discriminate.
    rewrite IncrementalFacts.updateStats_stats. cbv zeta.
    cbn [totalInCircle totalInSquare].
    replace (totalInCircle (Incremental.stats s) + 1 + length (b' :: l'))
      with (totalInCircle (Incremental.stats s) + length (b :: b' :: l'))
      by (cbn [length]; lia).
    replace (totalInSquare (Incremental.stats s)
             + (if inSquare b then 1 else 0)
             + length (filter inSquare (b' :: l')))
      with (totalInSquare (Incremental.stats s)
            + length (filter inSquare (b :: b' :: l')))
      by (cbn [filter]; destruct (inSquare b); cbn [length]; lia).
    reflexivity.
Qed.

(** X14.  The statistics [updateStats] accumulates do not depend on the
    order in which the balls land: from any state, two landing sequences
    that are permutations of each other give the same four
    statistics. *)
Theorem statistics_ignore_landing_order (landing landing' : list Ball)
    (s : Incremental.State) :
  Permutation landing landing' ->
  Incremental.stats
    (fold_left (fun acc b => Incremental.updateStats b acc) landing s)
  = Incremental.stats
      (fold_left (fun acc b => Incremental.updateStats b acc) landing' s).
Proof.
  intros Hp. destruct landing as [|b l].
  - apply Permutation_nil in Hp. now subst.
  - assert (Hne : landing' <> []).
    { intros ->. apply Permutation_sym, Permutation_nil in Hp. discriminate. }
    rewrite !updateStats_fold_from by (exact Hne || discriminate).
    cbv zeta.
    rewrite (Permutation_length Hp),
      (filter_length_Permutation inSquare _ _ Hp).
    reflexivity.
Qed.

(** Two balls, one blue and one pink. *)
Definition blueBall : Ball :=
  {| id := "a"%string; x := 100%R; y := (-20)%R;
     targetX := 100%R; targetY := 300%R; progress := 0%Q;
     color := "#38bdf8"%string; inSquare := false; status := falling |}.

Definition pinkBall : Ball :=
  {| id := "b"%string; x := 300%R; y := (-20)%R;
     targetX := 300%R; targetY := 300%R; progress := 0%Q;
     color := "#f472b6"%string; inSquare := true; status := falling |}.

Lemma statistics_ignore_landing_order_witness :
  Incremental.stats
    (fold_left (fun acc b => Incremental.updateStats b acc)
       [blueBall; pinkBall] Incremental.init)
  = Incremental.stats
      (fold_left (fun acc b => Incremental.updateStats b acc)
         [pinkBall; blueBall] Incremental.init).
Proof.
  exact (statistics_ignore_landing_order [blueBall; pinkBall]
           [pinkBall; blueBall] Incremental.init
           (perm_swap pinkBall blueBall [])).
Defined.

(* ------------------------------------------------------------------ *)
(** ** The commentary service, once the client exists *)

(** X15.  When the client is built, [getPiInsight] never rejects: if
    [generateContent] returns, the result is the response's text (which
    may be [undefined]) and nothing is logged; if it throws, the result
    is the fallback string and exactly that error is logged. *)
Theorem getPiInsight_settles_once_client_exists {Client : Type}
    (env : GeminiService.Environment Client) (ai : Client)
    (stats : GeminiService.InsightStats) :
  GeminiService.getAiClient env = GeminiService.Returns ai ->
  let request :=
    {| GeminiService.model := "gemini-3-flash-preview"%string;
       GeminiService.contents := GeminiService.promptOf env stats |} in
  (forall response,
     GeminiService.generateContent env ai request
       = GeminiService.Returns response ->
     GeminiService.getPiInsight env stats
     = {| GeminiService.logged := [];
          GeminiService.result :=
            GeminiService.Returns (GeminiService.text response) |}) /\
  (forall err,
     GeminiService.generateContent env ai request = GeminiService.Throws err ->
     GeminiService.getPiInsight env stats
     = {| GeminiService.logged := [err];
          GeminiService.result :=
            GeminiService.Returns (Some GeminiService.fallback) |}) /\
  (forall err,
     GeminiService.result (GeminiService.getPiInsight env stats)
     <> GeminiService.Throws err).
Proof.
  intros Hai. cbv zeta. unfold GeminiService.getPiInsight. rewrite Hai.
  split; [|split].
  - intros response ->. reflexivity.
  - intros err ->. reflexivity.
  - intros err. destruct (GeminiService.generateContent env ai _);
      discriminate.
Qed.

(** A configured credential and a service that answers 429. *)
Definition quotaExceeded : GeminiService.Environment unit :=
  {| GeminiService.API_KEY := Some "key"%string;
     GeminiService.newGoogleGenAI := fun _ => GeminiService.Returns tt;
     GeminiService.generateContent :=
       fun _ _ => GeminiService.Throws "429 RESOURCE_EXHAUSTED"%string;
     GeminiService.promptOf := fun _ => "prompt"%string |}.

Lemma getPiInsight_settles_once_client_exists_witness :
  GeminiService.getPiInsight quotaExceeded
    {| GeminiService.total := 0; GeminiService.square := 0;
       GeminiService.estimate := JS.Finite 0;
       GeminiService.error := JS.Finite 0 |}
  = {| GeminiService.logged := ["429 RESOURCE_EXHAUSTED"%string];
       GeminiService.result :=
         GeminiService.Returns (Some GeminiService.fallback) |}.
Proof.
  exact (proj1 (proj2
           (getPiInsight_settles_once_client_exists quotaExceeded tt
              {| GeminiService.total := 0; GeminiService.square := 0;
                 GeminiService.estimate := JS.Finite 0;
                 GeminiService.error := JS.Finite 0 |} eq_refl))
           "429 RESOURCE_EXHAUSTED"%string eq_refl).
Defined.

(* ------------------------------------------------------------------ *)
(** ** What the canvas draws *)



(** X16.  The circle the canvas draws and the circle the sampler fills
    have the same centre; they have the same radius exactly when the
    canvas is not wider than high (as the 600 x 600 canvas of both
    components is). *)
Theorem canvas_circle_is_sampler_circle (w h : R) :
  SimulationCanvas.centerX w = centerX {| width := w; height := h |} /\
  SimulationCanvas.centerY h = centerY {| width := w; height := h |} /\
  (SimulationCanvas.radius w h = radius {| width := w; height := h |}
   <-> (w <= h)%R) /\
  (SimulationCanvas.squareSize w h = squareSize {| width := w; height := h |}
   <-> (w <= h)%R).
Proof.
  assert (Hs : (0 < sqrt 2)%R) by (apply sqrt_lt_R0; lra).
  unfold SimulationCanvas.squareSize, squareSize, SimulationCanvas.radius,
    radius, SimulationCanvas.centerX, SimulationCanvas.centerY,
    centerX, centerY. cbn [width height].
  split; [reflexivity|]. split; [reflexivity|].
  unfold Rmin. destruct (Rle_dec w h) as [Hle | Hgt].
  - split; split; auto.
  - split; split; intros H; try lra.
    apply Rmult_eq_reg_r in H; lra.
Qed.

Lemma Q2R_zero : Q2R 0 = 0%R.
Proof. unfold Q2R. simpl. lra. Qed.

Lemma Q2R_one : Q2R 1 = 1%R.
Proof. unfold Q2R. simpl. lra. Qed.

(** X18.  A ball whose status and progress go together and whose
    landing point is not above the start height is drawn at its landing
    abscissa, between the start height -20 and its landing height; at
    the landing height once landed, at -20 when freshly dropped; and a
    tick never moves it up or sideways. *)
Theorem drawn_ball_descends (increment : Q) (b : Ball) :
  (0 <= increment)%Q -> wellFormed b -> (-20 <= targetY b)%R ->
  SimulationCanvas.drawnX b = targetX b /\
  (-20 <= SimulationCanvas.drawnY b <= targetY b)%R /\
  (status b = landed -> SimulationCanvas.drawnY b = targetY b) /\
  (status b = falling -> (progress b == 0)%Q ->
   SimulationCanvas.drawnY b = (-20)%R) /\
  (SimulationCanvas.drawnY b
   <= SimulationCanvas.drawnY (advance increment b))%R /\
  SimulationCanvas.drawnX (advance increment b) = SimulationCanvas.drawnX b.
Proof.
  intros Hinc Hw Hy.
  assert (HX : forall c, SimulationCanvas.drawnX c = targetX c)
    by (intros c; unfold SimulationCanvas.drawnX; now destruct (status c)).
  split; [apply HX|].
  unfold wellFormed in Hw. unfold SimulationCanvas.drawnY at 1 2 3 4 5.
  destruct (status b) eqn:E.
  - destruct Hw as [H0 H1].
    apply Qle_Rle in H0. apply Qlt_Rlt in H1.
    rewrite Q2R_zero in H0. rewrite Q2R_one in H1.
    apply Qle_Rle in Hinc. rewrite Q2R_zero in Hinc.
    split; [split; nra|]. split; [discriminate|]. split.
    + intros _ Hp. apply Qeq_eqR in Hp. rewrite Hp, Q2R_zero. lra.
    + split.
      * rewrite advance_falling by exact E.
        destruct (Qle_bool 1 _); unfold SimulationCanvas.drawnY; simpl.
        -- nra.
        -- rewrite E, Q2R_plus. nra.
      * rewrite !HX. apply advance_identity.
  - split; [lra|]. split; [reflexivity|]. split; [discriminate|].
    rewrite advance_landed by exact E.
    split; [|reflexivity].
    unfold SimulationCanvas.drawnY. rewrite E. lra.
Qed.

Lemma drawn_ball_descends_witness :
  SimulationCanvas.drawnX (generateBall appCanvas centreDraw)
  = targetX (generateBall appCanvas centreDraw) /\
  (-20 <= SimulationCanvas.drawnY (generateBall appCanvas centreDraw)
       <= targetY (generateBall appCanvas centreDraw))%R.
Proof.
  assert (Hy : (-20 <= targetY (generateBall appCanvas centreDraw))%R).
  { destruct (generateBall_centre appCanvas centreDraw) as (_ & -> & _).
    - simpl. lra.
    - reflexivity.
    - unfold centerY. simpl. lra. }
  assert (Hi : (0 <= 8 # 100)%Q) by discriminate.
  destruct (drawn_ball_descends (8 # 100) (generateBall appCanvas centreDraw)
              Hi (generateBall_wellFormed appCanvas centreDraw) Hy)
    as (HX & HY & _).
  split; [exact HX | exact HY].
Defined.

(** X19.  On a canvas not wider than high, a landed generated ball is
    drawn inside the dashed square exactly when its membership flag is
    set (coordinates over the reals). *)
Theorem landed_ball_is_drawn_where_flagged (c : CanvasSize) (d : Draw) :
  (width c <= height c)%R ->
  let b := land (generateBall c d) in
  SimulationCanvas.insideRect (width c) (height c)
    (SimulationCanvas.drawnX b) (SimulationCanvas.drawnY b)
  <-> inSquare b = true.
Proof.
  intros Hwh. cbv zeta.
  change (SimulationCanvas.drawnX (land (generateBall c d)))
    with (targetX (generateBall c d)).
  change (SimulationCanvas.drawnY (land (generateBall c d)))
    with (targetY (generateBall c d)).
  change (inSquare (land (generateBall c d)))
    with (inSquare (generateBall c d)).
  assert (Hr : SimulationCanvas.radius (width c) (height c) = radius c).
  { unfold SimulationCanvas.radius, radius. now rewrite Rmin_left. }
  rewrite generateBall_inSquare_iff, !Rabs_le_iff.
  unfold SimulationCanvas.insideRect, SimulationCanvas.rectLeft,
    SimulationCanvas.rectTop, SimulationCanvas.squareSize.
  rewrite Hr.
  change (SimulationCanvas.centerX (width c)) with (centerX c).
  change (SimulationCanvas.centerY (height c)) with (centerY c).
  split; intros; lra.
Qed.

Lemma landed_ball_is_drawn_where_flagged_witness :
  (width appCanvas <= height appCanvas)%R /\
  (SimulationCanvas.insideRect (width appCanvas) (height appCanvas)
     (SimulationCanvas.drawnX (land (generateBall appCanvas quarterDraw)))
     (SimulationCanvas.drawnY (land (generateBall appCanvas quarterDraw)))
   <-> inSquare (land (generateBall appCanvas quarterDraw)) = true).
Proof.
  assert (Hwh : (width appCanvas <= height appCanvas)%R) by (simpl; lra).
  split; [exact Hwh|].
  exact (landed_ball_is_drawn_where_flagged appCanvas quarterDraw Hwh).
Defined.

(* ------------------------------------------------------------------ *)
(** ** How long a ball falls *)

(** A fresh ball under the two increments: falling through 19 (12)
    ticks, the landed ball from the 20th (13th) on. *)
Lemma fresh_ball_fall (ball : Ball) :
  status ball = falling -> progress ball = 0%Q ->
  (forall n, n < 20 -> status (ticks Incremental.increment n ball) = falling) /\
  (forall n, 20 <= n -> ticks Incremental.increment n ball = land ball) /\
  (forall n, n < 13 -> status (ticks Recompute.increment n ball) = falling) /\
  (forall n, 13 <= n -> ticks Recompute.increment n ball = land ball).
Proof.
  intros Hf Hp.
  assert (HA : status (ticks Incremental.increment 19 ball) = falling /\
               ticks Incremental.increment 20 ball = land ball)
    by (destruct ball; cbn [status progress] in *; subst;
        split; vm_compute; reflexivity).
  assert (HB : status (ticks Recompute.increment 12 ball) = falling /\
               ticks Recompute.increment 13 ball = land ball)
    by (destruct ball; cbn [status progress] in *; subst;
        split; vm_compute; reflexivity).
  destruct HA as [HA1 HA2]. destruct HB as [HB1 HB2].
  assert (Hstay : forall inc k n,
             k <= n -> ticks inc k ball = land ball ->
             ticks inc n ball = land ball).
  { intros inc k n Hle Hk. replace n with ((n - k) + k) by lia.
    rewrite ticks_add, Hk. now apply ticks_landed. }
  assert (Hbefore : forall inc k n,
             n <= k -> status (ticks inc k ball) = falling ->
             status (ticks inc n ball) = falling).
  { intros inc k n Hle Hk.
    destruct (status (ticks inc n ball)) eqn:E; [reflexivity|].
    replace k with ((k - n) + n) in Hk by lia.
    rewrite ticks_add, ticks_landed in Hk by exact E. congruence. }
  split; [|split; [|split]].
  - intros n Hn. apply (Hbefore _ 19); [lia | exact HA1].
  - intros n Hn. now apply (Hstay _ 20).
  - intros n Hn. apply (Hbefore _ 12); [lia | exact HB1].
  - intros n Hn. now apply (Hstay _ 13).
Qed.

Lemma skipn_map_app (f : Ball -> Ball) (old new : list Ball) :
  skipn (length old) (map f (old ++ new)) = map f new.
Proof.
  rewrite map_app. rewrite <- (length_map f old).
  rewrite skipn_app, skipn_all, Nat.sub_diag. reflexivity.
Qed.

(** X20.  The balls of a drop, whatever came before it: through the
    first 19 firings of the interval after the drop all of them are
    falling, and from the 20th on they are the landed balls (progress 1,
    nothing else touched); under the animation frames of the recomputing
    component they are falling through the 12th frame and landed from
    the 13th on. *)
Theorem fall_lasts_20_ticks_or_13_frames :
  (forall trace count rand n,
     let s := Incremental.run
                (trace ++ Incremental.Drop count rand
                            :: repeat Incremental.Tick n) in
     let dropped :=
       skipn (length (Incremental.balls (Incremental.run trace)))
             (Incremental.balls s) in
     length dropped = JS.toLength count /\
     (n < 20 -> Forall (fun b => status b = falling) dropped) /\
     (20 <= n -> dropped = map land (newBalls appCanvas count rand))) /\
  (forall trace count rand n,
     let s := Recompute.run
                (trace ++ Recompute.Drop count rand
                            :: repeat Recompute.Frame n) in
     let dropped :=
       skipn (length (Recompute.balls (Recompute.run trace)))
             (Recompute.balls s) in
     length dropped = JS.toLength count /\
     (n < 13 -> Forall (fun b => status b = falling) dropped) /\
     (13 <= n -> dropped = map land (newBalls appCanvas count rand))).
Proof.
  split; intros trace count rand n; cbv zeta.
  - assert (E : Incremental.balls
                  (Incremental.run
                     (trace ++ Incremental.Drop count rand
                                 :: repeat Incremental.Tick n))
                = map (ticks Incremental.increment n)
                    (Incremental.balls (Incremental.run trace)
                     ++ newBalls appCanvas count rand)).
    { unfold Incremental.run. rewrite fold_left_app. cbn [fold_left].
      rewrite IncrementalMore.ticks_balls. reflexivity. }
    rewrite E, skipn_map_app.
    split; [now rewrite length_map, newBalls_length|]. split.
    + intros Hn. apply Forall_map.
      eapply Forall_impl; [|apply newBalls_fresh].
      intros b [Hf Hp]. now apply (fresh_ball_fall b Hf Hp).
    + intros Hn. apply map_ext_in. intros b Hin.
      pose proof (newBalls_fresh appCanvas count rand) as Hfr.
      rewrite Forall_forall in Hfr. destruct (Hfr b Hin) as [Hf Hp].
      now apply (fresh_ball_fall b Hf Hp).
  - assert (E : Recompute.balls
                  (Recompute.run
                     (trace ++ Recompute.Drop count rand
                                 :: repeat Recompute.Frame n))
                = map (ticks Recompute.increment n)
                    (Recompute.balls (Recompute.run trace)
                     ++ newBalls appCanvas count rand)).
    { unfold Recompute.run. rewrite fold_left_app. cbn [fold_left].
      rewrite RecomputeMore.frames_balls. reflexivity. }
    rewrite E, skipn_map_app.
    split; [now rewrite length_map, newBalls_length|]. split.
    + intros Hn. apply Forall_map.
      eapply Forall_impl; [|apply newBalls_fresh].
      intros b [Hf Hp]. now apply (fresh_ball_fall b Hf Hp).
    + intros Hn. apply map_ext_in. intros b Hin.
      pose proof (newBalls_fresh appCanvas count rand) as Hfr.
      rewrite Forall_forall in Hfr. destruct (Hfr b Hin) as [Hf Hp].
      now apply (fresh_ball_fall b Hf Hp).
Qed.
